(** * ReviewNow: the metadata-enrichment and translation pipeline

    A shallow embedding of [src/metadata_enricher.py] (class
    [MetadataEnricher]) and the properties of its chunker, translation
    cache, fallback chain and Semantic Scholar enrichment.

    Python [str] values are sequences of Unicode code points: they are
    modelled as [list N].  Python integers are unbounded: they are [Z].
    The session dictionary [translation_cache] is a [gmap]. *)

From Stdlib Require Import ZArith NArith Ascii String List Lia Bool.
From stdpp Require Import base option list gmap.

Import ListNotations.
Local Open Scope Z_scope.
#[local] Set Warnings "-register-all".

(** ** Strings *)

Abbreviation str := (list N).

(** An ASCII literal of the source as a sequence of code points. *)
Fixpoint lit (s : string) : str :=
  match s with
  | EmptyString => []
  | String a s' => N_of_ascii a :: lit s'
  end.

(** [len(s)] *)
Definition len (s : str) : Z := Z.of_nat (length s).

(** How CPython adjusts the bounds of [s[lo:hi]] and of
    [s.rfind(sub, start, end)] for a string of length [n]. *)
Definition adjust_start (n i : Z) : Z :=
  if i <? 0 then Z.max 0 (i + n) else i.

Definition adjust_end (n i : Z) : Z :=
  if n <? i then n else if i <? 0 then Z.max 0 (i + n) else i.

(** [s[lo:hi]] *)
Definition slice (s : str) (lo hi : Z) : str :=
  let lo' := adjust_end (len s) lo in
  let hi' := adjust_end (len s) hi in
  take (Z.to_nat (hi' - lo')) (drop (Z.to_nat lo') s).

(** [s[lo:]] *)
Definition slice_from (s : str) (lo : Z) : str :=
  drop (Z.to_nat (adjust_end (len s) lo)) s.

(** [s.startswith(p)] *)
Fixpoint startswith (s p : str) : bool :=
  match p, s with
  | [], _ => true
  | _ :: _, [] => false
  | a :: p', b :: s' => N.eqb a b && startswith s' p'
  end.

(** [sub in s] *)
Fixpoint str_in (sub s : str) : bool :=
  match s with
  | [] => startswith [] sub
  | _ :: s' => startswith s sub || str_in sub s'
  end.

(** [sep.join(parts)] *)
Fixpoint join (sep : str) (parts : list str) : str :=
  match parts with
  | [] => []
  | [p] => p
  | p :: ps => p ++ sep ++ join sep ps
  end.

(** The candidates of [rfind], from the highest index [lo + k] down to [lo]. *)
Fixpoint rfind_scan (text sub : str) (lo : Z) (k : nat) : Z :=
  if startswith (drop (Z.to_nat (lo + Z.of_nat k)) text) sub
  then lo + Z.of_nat k
  else match k with
       | O => -1
       | S k' => rfind_scan text sub lo k'
       end.

(** [text.rfind(sub, start, end)]: the highest index at which [sub] occurs
    inside [text[start:end]], or [-1]. *)
Definition rfind (text sub : str) (start end_ : Z) : Z :=
  let lo := adjust_start (len text) start in
  let hi := adjust_end (len text) end_ in
  if hi - lo <? len sub then -1
  else rfind_scan text sub lo (Z.to_nat (hi - lo - len sub)).

(** ** The chunker: [MetadataEnricher.chunk_text] *)

Module Chunker.

Definition SPACE : N := 32%N.
Definition NEWLINE : N := 10%N.
Definition DOT : N := 46%N.
Definition QUESTION : N := 63%N.
Definition BANG : N := 33%N.

(** [max(a, b, c, d, e, f)] over the results of the six [rfind] calls. *)
Definition last_terminator (text : str) (start end_ : Z) : Z :=
  Z.max (rfind text [DOT; SPACE] start end_)
 (Z.max (rfind text [QUESTION; SPACE] start end_)
 (Z.max (rfind text [BANG; SPACE] start end_)
 (Z.max (rfind text [DOT; NEWLINE] start end_)
 (Z.max (rfind text [QUESTION; NEWLINE] start end_)
        (rfind text [BANG; NEWLINE] start end_))))).

(** The value of [sentence_end] when the chunk is appended (lines 89-105). *)
Definition sentence_end (text : str) (max_chunk_size start : Z) : Z :=
  let end_ := start + max_chunk_size in
  let sentence_end := last_terminator text start end_ in
  if sentence_end =? -1 then
    let sentence_end := rfind text [SPACE] start end_ in
    if sentence_end =? -1 then end_ - 1 else sentence_end
  else sentence_end.

(** The [while start < len(text)] loop (lines 82-109).  [fuel] bounds the
    number of iterations; [None] means the bound was hit before the loop
    left. *)
Fixpoint chunk_loop (fuel : nat) (text : str) (max_chunk_size start : Z)
    (chunks : list str) : option (list str) :=
  match fuel with
  | O => None
  | S fuel' =>
    if start <? len text then
      if len text <=? start + max_chunk_size then
        Some (chunks ++ [slice_from text start])
      else
        let sentence_end := sentence_end text max_chunk_size start in
        chunk_loop fuel' text max_chunk_size (sentence_end + 1)
                   (chunks ++ [slice text start (sentence_end + 1)])
    else Some chunks
  end.

(** [chunk_text(text, max_chunk_size)] run for at most [fuel] iterations. *)
Definition chunk_text_fuel (fuel : nat) (text : str) (max_chunk_size : Z)
    : option (list str) :=
  if bool_decide (text = []) || (len text <=? max_chunk_size) then Some [text]
  else chunk_loop fuel text max_chunk_size 0 [].

(** The call as the translator makes it: one iteration for each character
    of [text], and one more, is all the loop can ever need when it
    progresses. *)
Definition chunk_text (text : str) (max_chunk_size : Z) : option (list str) :=
  chunk_text_fuel (S (length text)) text max_chunk_size.

End Chunker.

(** ** The outside world

    What the class reaches for outside the repository: the [translate]
    package (primary backend), [requests.get] (secondary backend and
    Semantic Scholar), [urllib.parse.urlencode] and the Unicode case
    mapping behind [str.upper].  A call either returns or raises; which
    of the two depends on the world at the time of the call. *)

Inductive response (A : Type) : Type :=
| Returns (a : A)
| Raises.
Arguments Returns {A} a.
Arguments Raises {A}.

(** A decoded JSON document, as [response.json()] hands it to the code.
    Fractional numbers behave like integers under every operation used
    here (truthiness, indexing, iteration, [+=]). *)
Inductive json : Type :=
| JNull
| JBool (b : bool)
| JNum (n : Z)
| JStr (s : str)
| JArr (items : list json)
| JObj (fields : list (str * json)).

(** A [requests.Response]: [json_body] is [None] when [response.json()]
    raises. *)
Record http_response : Type := {
  status_code : Z;
  json_body : option json
}.

Class Runtime : Type := {
  World : Type;
  (** [Translator(to_lang=.., from_lang=..).translate(chunk)] *)
  translator_translate : str -> str -> str -> World -> response str * World;
  (** [requests.get(url, timeout=..)] *)
  requests_get : str -> World -> response http_response * World;
  (** [urllib.parse.urlencode(params)] *)
  urlencode : list (str * str) -> str;
  (** The upper-case mapping of a code point outside ASCII. *)
  upper_nonascii : N -> str
}.

(** What a call leaves behind, for the properties that count calls. *)
Inductive event : Type :=
| EvPrimary (to_lang from_lang chunk : str) (r : response str)
| EvGoogle (to_lang from_lang text : str) (r : response http_response)
| EvGet (url : str) (r : response http_response)
| EvSleep (ms : Z).

(** The attributes set by [MetadataEnricher.__init__]. *)
Record session : Type := {
  translation_cache : gmap str str;
  translation_fail_count : Z;
  use_google_translate : bool
}.

(** [MetadataEnricher()] *)
Definition init : session :=
  {| translation_cache := ∅;
     translation_fail_count := 0;
     use_google_translate := false |}.

(** ** Python values *)

(** [bool(v)] *)
Definition truthy (v : json) : bool :=
  match v with
  | JNull => false
  | JBool b => b
  | JNum n => negb (n =? 0)
  | JStr s => negb (bool_decide (s = []))
  | JArr items => negb (bool_decide (items = []))
  | JObj fields => negb (bool_decide (fields = []))
  end.

(** [v[0]] *)
Definition getitem0 (v : json) : response json :=
  match v with
  | JArr (x :: _) => Returns x
  | JStr (c :: _) => Returns (JStr [c])
  | _ => Raises
  end.

(** [iter(v)] *)
Definition iterate (v : json) : response (list json) :=
  match v with
  | JArr items => Returns items
  | JStr s => Returns (map (fun c => JStr [c]) s)
  | JObj fields => Returns (map (fun kv => JStr (fst kv)) fields)
  | _ => Raises
  end.

(** [s += v] for a string [s] *)
Definition str_add (s : str) (v : json) : response str :=
  match v with
  | JStr t => Returns (s ++ t)
  | _ => Raises
  end.

(** The items of a [dict], searched by key. *)
Fixpoint assoc (key : str) (fields : list (str * json)) : option json :=
  match fields with
  | [] => None
  | (k, v) :: rest => if bool_decide (k = key) then Some v else assoc key rest
  end.

(** [v.get(key, dflt)]: only a [dict] has the method. *)
Definition dict_get (v : json) (key : str) (dflt : json) : response json :=
  match v with
  | JObj fields => Returns (default dflt (assoc key fields))
  | _ => Raises
  end.

(** [str.upper] on one ASCII code point. *)
Definition ascii_upper (c : N) : N :=
  if ((97 <=? c) && (c <=? 122))%N then (c - 32)%N else c.

(** ** Computations of the class

    A method runs in a state made of the world, the instance attributes
    and the trace of calls made so far.  It returns a value, raises, or
    (when a loop bound is hit) does not return. *)

Section Pipeline.
Context `{RT : Runtime}.

Record state : Type := {
  world : World;
  self : session;
  trace : list event
}.

Inductive outcome (A : Type) : Type :=
| Ok (a : A)
| Exn
| Diverges.
Arguments Ok {A} a.
Arguments Exn {A}.
Arguments Diverges {A}.

Definition M (A : Type) : Type := state -> outcome A * state.

Definition ret {A} (a : A) : M A := fun s => (Ok a, s).

Definition bind {A B} (m : M A) (k : A -> M B) : M B :=
  fun s =>
    match m s with
    | (Ok a, s') => k a s'
    | (Exn, s') => (Exn, s')
    | (Diverges, s') => (Diverges, s')
    end.

(** [try: m  except: handler] *)
Definition try_except {A} (m : M A) (handler : M A) : M A :=
  fun s =>
    match m s with
    | (Exn, s') => handler s'
    | r => r
    end.

Notation "'do' x <- m ; k" := (bind m (fun x => k))
  (at level 10, x name, m at level 100, k at level 200).
Notation "'run' m ; k" := (bind m (fun _ => k))
  (at level 10, m at level 100, k at level 200).

(** A pure computation that may raise. *)
Definition lift {A} (r : response A) : M A :=
  fun s => match r with Returns a => (Ok a, s) | Raises => (Exn, s) end.

(** A loop that may not come back. *)
Definition run_loop {A} (r : option A) : M A :=
  fun s => match r with Some a => (Ok a, s) | None => (Diverges, s) end.

Definition log (e : event) (s : state) : state :=
  {| world := world s; self := self s; trace := trace s ++ [e] |}.

Definition with_world (w : World) (s : state) : state :=
  {| world := w; self := self s; trace := trace s |}.

Definition with_self (x : session) (s : state) : state :=
  {| world := world s; self := x; trace := trace s |}.

(** [time.sleep(ms / 1000)] *)
Definition sleep (ms : Z) : M unit := fun s => (Ok tt, log (EvSleep ms) s).

(** [Translator(to_lang=to_lang, from_lang=from_lang).translate(chunk)] *)
Definition primary_translate (chunk to_lang from_lang : str) : M str :=
  fun s =>
    let (r, w) := translator_translate to_lang from_lang chunk (world s) in
    lift r (log (EvPrimary to_lang from_lang chunk r) (with_world w s)).

(** Reads and writes of the instance attributes. *)
Definition get_cache : M (gmap str str) :=
  fun s => (Ok (translation_cache (self s)), s).

Definition get_fail_count : M Z :=
  fun s => (Ok (translation_fail_count (self s)), s).

Definition get_use_google : M bool :=
  fun s => (Ok (use_google_translate (self s)), s).

(** [self.translation_cache[key] = value] *)
Definition cache_store (key value : str) : M unit :=
  fun s => (Ok tt, with_self
    {| translation_cache := <[key := value]> (translation_cache (self s));
       translation_fail_count := translation_fail_count (self s);
       use_google_translate := use_google_translate (self s) |} s).

(** [self.translation_fail_count += 1] *)
Definition incr_fail_count : M unit :=
  fun s => (Ok tt, with_self
    {| translation_cache := translation_cache (self s);
       translation_fail_count := translation_fail_count (self s) + 1;
       use_google_translate := use_google_translate (self s) |} s).

(** [self.use_google_translate = True] *)
Definition set_use_google : M unit :=
  fun s => (Ok tt, with_self
    {| translation_cache := translation_cache (self s);
       translation_fail_count := translation_fail_count (self s);
       use_google_translate := true |} s).

(** [s.upper()]: code point by code point. *)
Definition upper_char (c : N) : str :=
  if (c <? 128)%N then [ascii_upper c] else upper_nonascii c.

Definition upper (s : str) : str := flat_map upper_char s.

(** *** The secondary backend: [google_translate] *)

(** The loop over [result[0]] (lines 136-143). *)
Fixpoint google_sentences (sentences : list json) (translated_text : str)
    : response str :=
  match sentences with
  | [] => Returns translated_text
  | sentence :: rest =>
    match getitem0 sentence with
    | Raises => Raises
    | Returns s0 =>
      if truthy s0 then
        match str_add translated_text s0 with
        | Raises => Raises
        | Returns t => google_sentences rest t
        end
      else google_sentences rest translated_text
    end
  end.

Definition google_parse (result : json) : response str :=
  match getitem0 result with
  | Raises => Raises
  | Returns r0 =>
    match iterate r0 with
    | Raises => Raises
    | Returns sentences => google_sentences sentences []
    end
  end.

(** [response.json()] *)
Definition json_of (r : http_response) : response json :=
  match json_body r with Some v => Returns v | None => Raises end.

Definition google_url (text to_lang from_lang : str) : str :=
  let url := lit "https://translate.googleapis.com/translate_a/single" in
  let params := [ (lit "client", lit "gtx"); (lit "dt", lit "t");
                  (lit "sl", from_lang); (lit "tl", to_lang);
                  (lit "q", text) ] in
  url ++ lit "?" ++ urlencode params.

(** [requests.get(full_url, timeout=5)] inside [google_translate] *)
Definition google_get (text to_lang from_lang : str) : M http_response :=
  fun s =>
    let (r, w) := requests_get (google_url text to_lang from_lang) (world s) in
    lift r (log (EvGoogle to_lang from_lang text r) (with_world w s)).

Definition google_translate (text to_lang from_lang : str) : M str :=
  try_except
    (do response <- google_get text to_lang from_lang;
     if negb (status_code response =? 200) then ret text
     else
       do result <- lift (json_of response);
       lift (google_parse result))
    (ret text).

(** *** [contains_chinese] and the quota sentinel *)

(** The character class [[\u4e00-\u9fff]] of the pattern given to
    [re.search]. *)
Definition is_cjk (c : N) : bool := ((0x4e00 <=? c) && (c <=? 0x9fff))%N.

Definition contains_chinese (text : str) : bool :=
  if bool_decide (text = []) then false else existsb is_cjk text.

(** The test of lines 209 and 250. *)
Definition quota_exceeded (translated : str) : bool :=
  str_in (lit "MYMEMORY WARNING") (upper translated)
  || str_in (lit "QUOTA EXCEEDED") (upper translated).

(** *** [translate_text] *)

(** [f"{text[:30]}_{from_lang}_{to_lang}"] *)
Definition cache_key (text to_lang from_lang : str) : str :=
  slice text 0 30 ++ lit "_" ++ from_lang ++ lit "_" ++ to_lang.

(** [for x in items: acc = body(x, acc)] *)
Fixpoint for_each {A B} (items : list A) (body : A -> B -> M B) (acc : B)
    : M B :=
  match items with
  | [] => ret acc
  | x :: rest => do acc' <- body x acc; for_each rest body acc'
  end.

(** [self.chunk_text(text, max_chunk_size)] as a step of a method. *)
Definition run_chunk_text (text : str) (max_chunk_size : Z) : M (list str) :=
  run_loop (Chunker.chunk_text text max_chunk_size).

(** The loop of the Google-only path (lines 183-186). *)
Definition google_chunk (to_lang from_lang chunk : str)
    (translated_chunks : list str) : M (list str) :=
  run sleep 500;
  do translated_chunk <- google_translate chunk to_lang from_lang;
  ret (translated_chunks ++ [translated_chunk]).

(** Lines 171-194: the path taken once the session has given up on the
    primary backend. *)
Definition translate_google_only (text to_lang from_lang : str) : M str :=
  try_except
    (do chunks <- run_chunk_text text 900;
     match chunks with
     | [chunk] =>
       do translated <- google_translate chunk to_lang from_lang;
       run cache_store (cache_key text to_lang from_lang) translated;
       ret translated
     | _ =>
       do translated_chunks <-
         for_each chunks (google_chunk to_lang from_lang) [];
       let translated := join (lit " ") translated_chunks in
       run cache_store (cache_key text to_lang from_lang) translated;
       ret translated
     end)
    (ret text).

(** Lines 204-230: a text that fits one chunk. *)
Definition translate_single (text chunk to_lang from_lang : str) : M str :=
  try_except
    (do translated <- primary_translate chunk to_lang from_lang;
     do translated <-
       (if quota_exceeded translated then
          run incr_fail_count;
          run set_use_google;
          google_translate chunk to_lang from_lang
        else ret translated);
     run cache_store (cache_key text to_lang from_lang) translated;
     ret translated)
    (run incr_fail_count;
     try_except
       (do translated <- google_translate chunk to_lang from_lang;
        run cache_store (cache_key text to_lang from_lang) translated;
        ret translated)
       (ret text)).

(** Lines 237-270: the body of the loop over several chunks. *)
Definition translate_chunk (to_lang from_lang chunk : str)
    (translated_chunks : list str) : M (list str) :=
  run sleep 500;
  try_except
    (do use_google <- get_use_google;
     do translated_chunk <-
       (if use_google then google_translate chunk to_lang from_lang
        else
          do translated_chunk <- primary_translate chunk to_lang from_lang;
          if quota_exceeded translated_chunk then
            run incr_fail_count;
            run set_use_google;
            google_translate chunk to_lang from_lang
          else ret translated_chunk);
     ret (translated_chunks ++ [translated_chunk]))
    (run incr_fail_count;
     try_except
       (do translated_chunk <- google_translate chunk to_lang from_lang;
        ret (translated_chunks ++ [translated_chunk]))
       (ret (translated_chunks ++ [chunk]))).

(** Lines 196-286: the path that starts with the primary backend. *)
Definition translate_primary_first (text to_lang from_lang : str) : M str :=
  try_except
    (do chunks <- run_chunk_text text 450;
     match chunks with
     | [chunk] => translate_single text chunk to_lang from_lang
     | _ =>
       do translated_chunks <-
         for_each chunks (translate_chunk to_lang from_lang) [];
       let translated := join (lit " ") translated_chunks in
       run cache_store (cache_key text to_lang from_lang) translated;
       ret translated
     end)
    (try_except (google_translate text to_lang from_lang) (ret text)).

Definition translate_text (text to_lang from_lang : str) : M str :=
  if bool_decide (text = []) then ret []
  else if bool_decide (to_lang = lit "zh") && contains_chinese text
  then ret text
  else
    do cache <- get_cache;
    match cache !! cache_key text to_lang from_lang with
    | Some cached => ret cached
    | None =>
      do fail_count <- get_fail_count;
      do use_google <- get_use_google;
      if (3 <=? fail_count) || use_google then
        run set_use_google;
        translate_google_only text to_lang from_lang
      else translate_primary_first text to_lang from_lang
    end.

(** A session: [translate_text] called on one request after another. *)
Fixpoint translate_all (requests : list (str * str * str)) : M (list str) :=
  match requests with
  | [] => ret []
  | (text, to_lang, from_lang) :: rest =>
    do translated <- translate_text text to_lang from_lang;
    do others <- translate_all rest;
    ret (translated :: others)
  end.

(** *** [enrich_with_semantic_scholar] *)

(** [requests.get(url, timeout=10)] *)
Definition semantic_scholar_get (url : str) : M http_response :=
  fun s =>
    let (r, w) := requests_get url (world s) in
    lift r (log (EvGet url r) (with_world w s)).

(** [[topic.get('name') for topic in topics]] *)
Fixpoint topic_names (topics : list json) : response (list json) :=
  match topics with
  | [] => Returns []
  | topic :: rest =>
    match dict_get topic (lit "name") JNull with
    | Raises => Raises
    | Returns name =>
      match topic_names rest with
      | Raises => Raises
      | Returns names => Returns (name :: names)
      end
    end
  end.

(** The value stored under ['topics'] (line 46). *)
Definition topics_of (data : json) : response json :=
  match dict_get data (lit "topics") JNull with
  | Raises => Raises
  | Returns t =>
    if truthy t then
      match dict_get data (lit "topics") (JArr []) with
      | Raises => Raises
      | Returns t' =>
        match iterate t' with
        | Raises => Raises
        | Returns topics =>
          match topic_names topics with
          | Raises => Raises
          | Returns names => Returns (JArr names)
          end
        end
      end
    else Returns (JArr [])
  end.

(** '未知' *)
Definition UNKNOWN : str := [0x672a; 0x77e5]%N.

(** The dictionary literal of lines 38-47. *)
Definition additional_data (data : json) : M (gmap str json) :=
  do citation_count <- lift (dict_get data (lit "citationCount") (JNum 0));
  do influence_factor <-
    lift (dict_get data (lit "influentialCitationCount") (JNum 0));
  do published_in <- lift (dict_get data (lit "venue") (JStr UNKNOWN));
  do year <- lift (dict_get data (lit "year") JNull);
  do doi <- lift (dict_get data (lit "doi") JNull);
  do url <- lift (dict_get data (lit "url") JNull);
  do is_open_access <- lift (dict_get data (lit "isOpenAccess") (JBool false));
  do topics <- lift (topics_of data);
  ret (<[lit "topics" := topics]>
      (<[lit "is_open_access" := is_open_access]>
      (<[lit "url" := url]>
      (<[lit "doi" := doi]>
      (<[lit "year" := year]>
      (<[lit "published_in" := published_in]>
      (<[lit "influence_factor" := influence_factor]>
      (<[lit "citation_count" := citation_count]> ∅)))))))).

(** [arxiv_id] after lines 23-24. *)
Definition strip_arxiv_prefix (arxiv_id : str) : str :=
  if startswith arxiv_id (lit "arxiv:") then slice_from arxiv_id 6
  else arxiv_id.

Definition semantic_scholar_url (arxiv_id : str) : str :=
  lit "https://api.semanticscholar.org/v1/paper/arXiv:" ++ arxiv_id.

Definition enrich_with_semantic_scholar (arxiv_id : str)
    : M (gmap str json) :=
  let arxiv_id := strip_arxiv_prefix arxiv_id in
  let url := semantic_scholar_url arxiv_id in
  try_except
    (run sleep 1000;
     do response <- semantic_scholar_get url;
     if status_code response =? 200 then
       do data <- lift (json_of response);
       additional_data data
     else ret ∅)
    (ret ∅).

(** *** [translate_paper_data] *)

(** [raise] *)
Definition raise {A} : M A := fun s => (Exn, s).

(** [self.translate_text(value)] with the default languages, for a value
    taken from a dictionary: a falsy value returns [""] at line 152, a
    string is translated, and any other value makes [re.search] raise in
    [contains_chinese]. *)
Definition translate_value (value : json) : M str :=
  if negb (truthy value) then ret []
  else match value with
       | JStr text => translate_text text (lit "zh") (lit "en")
       | _ => raise
       end.

(** One of the two blocks of lines 295-309: [field] is ['title'] or
    ['summary'], [field_zh] the key that receives the translation. *)
Definition translate_field (paper_data : gmap str json) (field field_zh : str)
    (translated_data : gmap str json) : M (gmap str json) :=
  match paper_data !! field with
  | Some value =>
    try_except
      (do translated <- translate_value value;
       ret (<[field_zh := JStr translated]> translated_data))
      (ret (<[field_zh := value]> translated_data))
  | None => ret translated_data
  end.

Definition translate_paper_data (paper_data : gmap str json)
    : M (gmap str json) :=
  let translated_data := paper_data in
  do translated_data <-
    translate_field paper_data (lit "title") (lit "title_zh") translated_data;
  translate_field paper_data (lit "summary") (lit "summary_zh")
    translated_data.

(** *** The query translation of the web page and of the command line

    [app.py] and [main.py] have their own [contains_chinese] (without the
    test for an empty text) and [translate_to_english]; [app.py] also has
    a copy of [google_translate], line for line the method above. *)

(** [contains_chinese] of [app.py] (lines 35-37) and [main.py] (8-10). *)
Definition app_contains_chinese (text : str) : bool := existsb is_cjk text.

(** [translate_to_english] of [app.py] (lines 76-104). *)
Definition app_translate_to_english (text : str) : M (str * bool) :=
  if negb (app_contains_chinese text) then ret (text, false)
  else
    try_except
      (do translated <- primary_translate text (lit "en") (lit "zh");
       if quota_exceeded translated then
         do translated <- google_translate text (lit "en") (lit "zh");
         ret (translated, true)
       else ret (translated, true))
      (try_except
         (do translated <- google_translate text (lit "en") (lit "zh");
          ret (translated, true))
         (ret (text, false))).

(** [translate_to_english] of [main.py] (lines 13-24). *)
Definition main_translate_to_english (text : str) : M (str * bool) :=
  if negb (app_contains_chinese text) then ret (text, false)
  else
    try_except
      (do translated <- primary_translate text (lit "en") (lit "zh");
       ret (translated, true))
      (ret (text, false)).

End Pipeline.

Arguments Ok {A} a.
Arguments Exn {A}.
Arguments Diverges {A}.

(** ** The caller: [ArxivClient.get_paper_details]

    [src/arxiv_client.py], lines 213-272: what [get_paper_details] does
    with an identifier that does not start with ['doi:'] (those are handed
    to [get_crossref_paper_details] at line 210).  The [arxiv] package is
    outside the repository: [next(self.client.results(search))] returns a
    paper, raises [StopIteration] or raises something else. *)

(** The attributes of an [arxiv.Result] that the method reads. *)
Record arxiv_paper : Type := {
  short_id : str;
  paper_title : str;
  paper_authors : list str;
  paper_summary : str;
  paper_published : str;
  paper_updated : str;
  paper_categories : list str;
  paper_pdf_url : json;
  paper_entry_id : str;
  paper_comment : json;
  paper_journal_ref : json
}.

Inductive arxiv_answer : Type :=
| ArxivFound (paper : arxiv_paper)
| ArxivStop
| ArxivRaises (message : str).

Class ArxivRuntime : Type := {
  arxiv_rt :: Runtime;
  (** [next(self.client.results(arxiv.Search(id_list=[paper_id])))] *)
  arxiv_next : str -> World -> arxiv_answer * World
}.

(** "未找到ID为" and "的论文" *)
Definition NOT_FOUND : str := [0x672a; 0x627e; 0x5230; 0x49; 0x44; 0x4e3a]%N.
Definition PAPER : str := [0x7684; 0x8bba; 0x6587]%N.

(** "获取论文详情出错: " *)
Definition DETAILS_FAILED : str :=
  [0x83b7; 0x53d6; 0x8bba; 0x6587; 0x8be6; 0x60c5; 0x51fa; 0x9519;
   0x3a; 0x20]%N.

(** [{"error": message}] *)
Definition error_record (message : str) : gmap str json :=
  <[lit "error" := JStr message]> ∅.

(** The dictionary literal of lines 227-240. *)
Definition base_record (paper : arxiv_paper) : gmap str json :=
  <[lit "source" := JStr (lit "arxiv")]>
  (<[lit "journal_ref" := paper_journal_ref paper]>
  (<[lit "comment" := paper_comment paper]>
  (<[lit "arxiv_url" := JStr (paper_entry_id paper)]>
  (<[lit "pdf_url" := paper_pdf_url paper]>
  (<[lit "categories" := JArr (map JStr (paper_categories paper))]>
  (<[lit "updated" := JStr (paper_updated paper)]>
  (<[lit "published" := JStr (paper_published paper)]>
  (<[lit "summary" := JStr (paper_summary paper)]>
  (<[lit "authors" := JArr (map JStr (paper_authors paper))]>
  (<[lit "title" := JStr (paper_title paper)]>
  (<[lit "id" := JStr (short_id paper)]> ∅))))))))))).

(** The keys of [base_record]. *)
Definition paper_fields : list str :=
  [ lit "id"; lit "title"; lit "authors"; lit "summary"; lit "published";
    lit "updated"; lit "categories"; lit "pdf_url"; lit "arxiv_url";
    lit "comment"; lit "journal_ref"; lit "source" ].

Section Client.
Context `{ART : ArxivRuntime}.

Local Notation "'do' x <- m ; k" := (bind m (fun x => k))
  (at level 10, x name, m at level 100, k at level 200).

(** Lines 242-256: the two translations and their common [except]. *)
Definition translate_details (paper : arxiv_paper)
    (paper_data : gmap str json) : M (gmap str json) :=
  try_except
    (do translated_title <-
       translate_text (paper_title paper) (lit "zh") (lit "en");
     let paper_data := <[lit "title_zh" := JStr translated_title]> paper_data in
     do translated_summary <-
       translate_text (paper_summary paper) (lit "zh") (lit "en");
     ret (<[lit "summary_zh" := JStr translated_summary]> paper_data))
    (ret (<[lit "summary_zh" := JStr (paper_summary paper)]>
         (<[lit "title_zh" := JStr (paper_title paper)]> paper_data))).

(** Lines 258-265: the enrichment, merged only when it is not empty. *)
Definition merge_enrichment (paper_id : str) (paper_data : gmap str json)
    : M (gmap str json) :=
  try_except
    (do additional_data <- enrich_with_semantic_scholar paper_id;
     if negb (Nat.eqb (size additional_data) 0)
     then ret (additional_data ∪ paper_data)
     else ret paper_data)
    (ret paper_data).

Definition get_paper_details_arxiv (paper_id : str) : M (gmap str json) :=
  let paper_id := strip_arxiv_prefix paper_id in
  fun s =>
    let (answer, w) := arxiv_next paper_id (world s) in
    match answer with
    | ArxivStop =>
      (Ok (error_record (NOT_FOUND ++ paper_id ++ PAPER)), with_world w s)
    | ArxivRaises message =>
      (Ok (error_record (DETAILS_FAILED ++ message)), with_world w s)
    | ArxivFound paper =>
      try_except
        (do paper_data <- translate_details paper (base_record paper);
         merge_enrichment paper_id paper_data)
        (ret (error_record DETAILS_FAILED))
        (with_world w s)
    end.

End Client.

(** ** Reading a trace *)

Definition is_primary (e : event) : bool :=
  match e with EvPrimary _ _ _ _ => true | _ => false end.

Definition is_backend (e : event) : bool :=
  match e with
  | EvPrimary _ _ _ _ | EvGoogle _ _ _ _ => true
  | _ => false
  end.

(** The number of backend calls in a trace. *)
Fixpoint backend_calls (events : list event) : nat :=
  match events with
  | [] => O
  | e :: rest => ((if is_backend e then 1 else 0) + backend_calls rest)%nat
  end.

Section Traces.
Context `{RT : Runtime}.

(** A call of the primary backend that the translator counts as failed:
    it raised, or it returned the quota message. *)
Definition primary_failed (e : event) : bool :=
  match e with
  | EvPrimary _ _ _ Raises => true
  | EvPrimary _ _ _ (Returns translated) => quota_exceeded translated
  | _ => false
  end.

Fixpoint failures (events : list event) : Z :=
  match events with
  | [] => 0
  | e :: rest => (if primary_failed e then 1 else 0) + failures rest
  end.

Definition no_primary (events : list event) : Prop :=
  Forall (fun e => is_primary e = false) events.

(** The events of a call made for [chunk] (a pause is about any chunk; a
    request to Semantic Scholar is about none). *)
Definition about (chunk : str) (e : event) : Prop :=
  match e with
  | EvPrimary _ _ c _ | EvGoogle _ _ c _ => c = chunk
  | EvGet _ _ => False
  | EvSleep _ => True
  end.

(** An exception inside the [try] block of [google_translate]: the request
    raised, or the body of a 200 answer could not be decoded or walked. *)
Definition google_raised (r : response http_response) : bool :=
  match r with
  | Raises => true
  | Returns response =>
    (status_code response =? 200) &&
    match json_of response with
    | Raises => true
    | Returns result =>
      match google_parse result with
      | Raises => true
      | Returns _ => false
      end
    end
  end.

Definition not_google (e : event) : Prop :=
  match e with EvGoogle _ _ _ _ => False | _ => True end.

(** How the request of [google_translate text ..] goes in state [s], and
    the state it leaves. *)
Definition google_answer (text to_lang from_lang : str) (s : state)
    : response http_response :=
  fst (requests_get (google_url text to_lang from_lang) (world s)).

Definition after_google (text to_lang from_lang : str) (s : state) : state :=
  log (EvGoogle to_lang from_lang text (google_answer text to_lang from_lang s))
      (with_world
         (snd (requests_get (google_url text to_lang from_lang) (world s))) s).

(** What a piece of [translate_text] that made the calls [delta] does to
    the session: the trace grows by [delta], the failure count grows by
    the failed primary calls in [delta], the flag is not cleared, and
    under the flag no primary call is made. *)
Record session_step (s s' : state) (delta : list event) : Prop := {
  step_trace : trace s' = trace s ++ delta;
  step_count :
    translation_fail_count (self s')
    = translation_fail_count (self s) + failures delta;
  step_flag :
    use_google_translate (self s) = true ->
    use_google_translate (self s') = true;
  step_sticky : use_google_translate (self s) = true -> no_primary delta
}.

(** A primary call that was answered with the quota message. *)
Definition quota_event (e : event) : bool :=
  match e with
  | EvPrimary _ _ _ (Returns translated) => quota_exceeded translated
  | _ => false
  end.

(** No primary call comes after a primary call that was answered with the
    quota message. *)
Fixpoint sealed (events : list event) : bool :=
  match events with
  | [] => true
  | e :: rest =>
    (if quota_event e then forallb (fun e' => negb (is_primary e')) rest
     else true) && sealed rest
  end.

(** What the quota message does to a piece of [translate_text] that made
    the calls [delta]: it sets the flag, and under the flag no primary
    call is made. *)
Record seal_step (s s' : state) (delta : list event) : Prop := {
  seal_trace : trace s' = trace s ++ delta;
  seal_quota :
    existsb quota_event delta = true -> use_google_translate (self s') = true;
  seal_flag :
    use_google_translate (self s) = true ->
    use_google_translate (self s') = true /\
    forallb (fun e => negb (is_primary e)) delta = true;
  seal_sealed : sealed delta = true
}.

(** What the body of a loop over chunks does in one iteration. *)
Definition chunk_body_spec (to_lang from_lang : str)
    (body : str -> list str -> M (list str)) : Prop :=
  forall chunk acc s, exists v delta s',
    body chunk acc s = (Ok (acc ++ [v]), s') /\
    session_step s s' delta /\
    translation_cache (self s') = translation_cache (self s) /\
    (forall r, In (EvGoogle to_lang from_lang chunk r) delta ->
               google_raised r = true -> v = chunk) /\
    Forall (about chunk) delta.

End Traces.

(** ** Vocabulary of the properties *)

(** [sub] occurs in [s] as a contiguous run of characters. *)
Definition occurs_in (sub s : str) : Prop :=
  exists pre post, s = pre ++ sub ++ post.

(** Equal up to the case of ASCII letters. *)
Definition same_ignoring_case (a b : str) : Prop :=
  map ascii_upper a = map ascii_upper b.

Definition occurs_ignoring_case (phrase s : str) : Prop :=
  exists pre mid post, s = pre ++ mid ++ post /\ same_ignoring_case mid phrase.

(** The two phrases the translator looks for, and the full message of the
    primary backend, which contains both. *)
Definition sentinel_phrases : list str :=
  [ lit "MYMEMORY WARNING"; lit "QUOTA EXCEEDED";
    lit "MYMEMORY WARNING: QUOTA EXCEEDED" ].

(** The session no longer tries the primary backend. *)
Definition gave_up (x : session) : Prop :=
  3 <= translation_fail_count x \/ use_google_translate x = true.

(** What [google_translate text ..] returns, given how its request went. *)
Definition google_result (text : str) (r : response http_response) : str :=
  match r with
  | Raises => text
  | Returns response =>
    if negb (status_code response =? 200) then text
    else match json_of response with
         | Raises => text
         | Returns result =>
           match google_parse result with
           | Raises => text
           | Returns translated => translated
           end
         end
  end.

(** [topic.get('name')] for a topic that is an object. *)
Definition topic_name (topic : json) : json :=
  match topic with
  | JObj fields => default JNull (assoc (lit "name") fields)
  | _ => JNull
  end.

(** The value stored under ['topics'] for the fields of a well-formed
    answer. *)
Definition topics_value (fields : list (str * json)) : json :=
  match assoc (lit "topics") fields with
  | Some (JArr topics) => JArr (map topic_name topics)
  | _ => JArr []
  end.

(** The eight keys of the enrichment mapping. *)
Definition enrichment_fields : list str :=
  [ lit "citation_count"; lit "influence_factor"; lit "published_in";
    lit "year"; lit "doi"; lit "url"; lit "is_open_access"; lit "topics" ].

(** The body of a successful Semantic Scholar answer: an object whose
    ['topics'], when present and not empty, is an array of objects. *)
Definition is_object (v : json) : bool :=
  match v with JObj _ => true | _ => false end.

Definition well_formed_paper (data : json) : bool :=
  match data with
  | JObj fields =>
    match assoc (lit "topics") fields with
    | None => true
    | Some (JArr topics) => forallb is_object topics
    | Some t => negb (truthy t)
    end
  | _ => false
  end.

Section Specifications.
Context `{RT : Runtime}.

(** What either path of [translate_text] past the cache achieves. *)
Definition path_spec (text to_lang from_lang : str) (m : M str) (s : state)
    : Prop :=
  exists v delta s',
    m s = (Ok v, s') /\
    session_step s s' delta /\
    translation_cache (self s')
    = <[cache_key text to_lang from_lang := v]> (translation_cache (self s)) /\
    (forall chunk r,
       In (EvGoogle to_lang from_lang chunk r) delta ->
       google_raised r = true ->
       occurs_in chunk v) /\
    (text <> [] -> Forall (fun e => exists c, c <> [] /\ about c e) delta).

End Specifications.

(** ** A scripted world

    Every call of a backend takes the next canned answer; a backend whose
    answers are used up raises. *)

Record script : Type := {
  primary_answers : list (response str);
  http_answers : list (response http_response)
}.

Definition next_primary (w : script) : response str * script :=
  match primary_answers w with
  | [] => (Raises, w)
  | r :: rest => (r, {| primary_answers := rest; http_answers := http_answers w |})
  end.

Definition next_http (w : script) : response http_response * script :=
  match http_answers w with
  | [] => (Raises, w)
  | r :: rest => (r, {| primary_answers := primary_answers w; http_answers := rest |})
  end.

(** [k1=v1&k2=v2], without the percent-encoding of the real function. *)
Fixpoint plain_urlencode (params : list (str * str)) : str :=
  match params with
  | [] => []
  | [(k, v)] => k ++ lit "=" ++ v
  | (k, v) :: rest => k ++ lit "=" ++ v ++ lit "&" ++ plain_urlencode rest
  end.

#[local] Instance scripted : Runtime := {|
  World := script;
  translator_translate := fun _ _ _ => next_primary;
  requests_get := fun _ => next_http;
  urlencode := plain_urlencode;
  upper_nonascii := fun c => [c]
|}.

Definition start (w : script) (x : session) : @state scripted :=
  {| world := w; self := x; trace := [] |}.

Definition offline : script := {| primary_answers := []; http_answers := [] |}.

(** "你好" *)
Definition NI_HAO : str := [0x4f60; 0x597d]%N.

(** The answer of the secondary backend for "hello": [[["你好", "hello"]]]. *)
Definition google_hello : http_response :=
  {| status_code := 200;
     json_body := Some (JArr [JArr [JArr [JStr NI_HAO; JStr (lit "hello")]]]) |}.

Definition QUOTA_MESSAGE : str := lit "MYMEMORY WARNING: QUOTA EXCEEDED".

Definition hello : str := lit "hello".
Definition zh : str := lit "zh".
Definition en : str := lit "en".

(** A session whose primary backend has failed three times. *)
Definition three_failures : session :=
  {| translation_cache := ∅;
     translation_fail_count := 3;
     use_google_translate := false |}.

(** Three short texts with three different cache keys. *)
Definition three_requests : list (str * str * str) :=
  [ (lit "one", zh, en); (lit "two", zh, en); (lit "three", zh, en) ].

(** The primary backend answers with the quota message in mixed case, the
    secondary backend translates. *)
Definition quota_world : script :=
  {| primary_answers := [Returns (lit "MyMemory Warning: quota exceeded!")];
     http_answers := [Returns google_hello] |}.

(** A record as the search returns it, with a year that is a number. *)
Definition paper_record : gmap str json :=
  <[lit "summary" := JStr hello]>
  (<[lit "title" := JStr hello]>
  (<[lit "year" := JNum 2017]> ∅)).

(** A Semantic Scholar answer for arXiv:1706.03762. *)
Definition paper_json : json :=
  JObj [ (lit "citationCount", JNum 100);
         (lit "venue", JStr (lit "NIPS"));
         (lit "year", JNum 2017);
         (lit "topics", JArr [JObj [(lit "name", JStr (lit "Attention"))]]) ].

Definition scholar_world : script :=
  {| primary_answers := [];
     http_answers :=
       [Returns {| status_code := 200; json_body := Some paper_json |}] |}.

(** The paper of the Semantic Scholar answer below, as [arxiv] returns
    it; any other identifier is unknown. *)
Definition attention_paper : arxiv_paper :=
  {| short_id := lit "1706.03762v7";
     paper_title := hello;
     paper_authors := [lit "A. Vaswani"];
     paper_summary := hello;
     paper_published := lit "2017-06-12";
     paper_updated := lit "2023-08-02";
     paper_categories := [lit "cs.CL"];
     paper_pdf_url := JStr (lit "https://arxiv.org/pdf/1706.03762v7");
     paper_entry_id := lit "http://arxiv.org/abs/1706.03762v7";
     paper_comment := JNull;
     paper_journal_ref := JNull |}.

Definition scripted_arxiv : ArxivRuntime := {|
  arxiv_rt := scripted;
  arxiv_next := fun paper_id w =>
    if bool_decide (paper_id = lit "1706.03762")
    then (ArxivFound attention_paper, w)
    else (ArxivStop, w)
|}.

(** ** A steady world

    The primary backend answers every chunk with the same word and the
    secondary backend is down. *)

Definition OK_WORD : str := lit "ok".

Definition steady : Runtime := {|
  World := unit;
  translator_translate := fun _ _ _ w => (Returns OK_WORD, w);
  requests_get := fun _ w => (Raises, w);
  urlencode := plain_urlencode;
  upper_nonascii := fun c => [c]
|}.

Definition steady_start (x : session) : @state steady :=
  @Build_state steady tt x [].

(** [arxiv] finds the paper above under every identifier, and nothing
    else answers. *)
Definition steady_arxiv : ArxivRuntime := {|
  arxiv_rt := steady;
  arxiv_next := fun _ w => (ArxivFound attention_paper, w)
|}.

(** Two abstracts that share their first 30 characters. *)
Definition ABSTRACT_ONE : str :=
  lit "We study the convergence of the method on graphs.".

Definition ABSTRACT_TWO : str :=
  lit "We study the convergence of the scheme on trees.".

(** ** Properties of the chunker *)

Section ChunkerFacts.
Import Chunker.

Lemma len_nonneg (s : str) : 0 <= len s.
Proof. unfold len. lia. Qed.

Lemma len_app (a b : str) : len (a ++ b) = len a + len b.
Proof. unfold len. rewrite length_app. lia. Qed.

Lemma adjust_start_id n i : 0 <= i -> adjust_start n i = i.
Proof. intros Hi. unfold adjust_start. destruct (Z.ltb_spec i 0); lia. Qed.

Lemma adjust_end_id n i : 0 <= i <= n -> adjust_end n i = i.
Proof.
  intros Hi. unfold adjust_end.
  destruct (Z.ltb_spec n i); [lia |]. destruct (Z.ltb_spec i 0); lia.
Qed.

Lemma slice_inside (s : str) lo hi :
  0 <= lo <= hi -> hi <= len s ->
  slice s lo hi = take (Z.to_nat (hi - lo)) (drop (Z.to_nat lo) s).
Proof.
  intros Hlo Hhi. unfold slice. rewrite !adjust_end_id by lia. reflexivity.
Qed.

Lemma slice_from_inside (s : str) lo :
  0 <= lo <= len s -> slice_from s lo = drop (Z.to_nat lo) s.
Proof. intros Hlo. unfold slice_from. rewrite adjust_end_id by lia. reflexivity. Qed.

Lemma len_slice (s : str) lo hi :
  0 <= lo <= hi -> hi <= len s -> len (slice s lo hi) = hi - lo.
Proof.
  intros Hlo Hhi. rewrite slice_inside by assumption. unfold len in *.
  rewrite length_take, length_drop. lia.
Qed.

Lemma len_slice_from (s : str) lo :
  0 <= lo <= len s -> len (slice_from s lo) = len s - lo.
Proof.
  intros Hlo. rewrite slice_from_inside by assumption. unfold len in *.
  rewrite length_drop. lia.
Qed.

(** A prefix followed by the slice that starts where it ends is the longer
    prefix. *)
Lemma take_slice (s : str) lo hi :
  0 <= lo <= hi -> hi <= len s ->
  take (Z.to_nat lo) s ++ slice s lo hi = take (Z.to_nat hi) s.
Proof.
  intros Hlo Hhi. rewrite slice_inside by assumption.
  rewrite take_take_drop. f_equal. lia.
Qed.

Lemma take_slice_from (s : str) lo :
  0 <= lo <= len s -> take (Z.to_nat lo) s ++ slice_from s lo = s.
Proof.
  intros Hlo. rewrite slice_from_inside by assumption. apply take_drop.
Qed.

(** [rfind_scan] answers [-1] or one of its candidates. *)
Lemma rfind_scan_range text sub lo k :
  rfind_scan text sub lo k = -1 \/
  lo <= rfind_scan text sub lo k <= lo + Z.of_nat k.
Proof.
  induction k as [| k IH]; simpl rfind_scan.
  - destruct (startswith _ sub); [right; lia | left; reflexivity].
  - destruct (startswith _ sub); [right; lia |].
    destruct IH as [IH | IH]; [left; exact IH | right; lia].
Qed.

(** An occurrence found by [rfind] lies wholly inside the window. *)
Lemma rfind_range text sub start end_ :
  0 <= start -> 0 <= end_ <= len text ->
  rfind text sub start end_ = -1 \/
  (start <= rfind text sub start end_ /\
   rfind text sub start end_ + len sub <= end_).
Proof.
  intros Hs He. unfold rfind.
  rewrite adjust_start_id, adjust_end_id by lia.
  destruct (Z.ltb_spec (end_ - start) (len sub)); [left; reflexivity |].
  destruct (rfind_scan_range text sub start
              (Z.to_nat (end_ - start - len sub))) as [H1 | H1];
    [left; exact H1 | right; lia].
Qed.

(** The boundary chosen in an iteration lies in the window, whichever of
    the three searches decides it. *)
Lemma sentence_end_range text max_chunk_size start :
  1 <= max_chunk_size -> 0 <= start -> start + max_chunk_size < len text ->
  start <= sentence_end text max_chunk_size start < start + max_chunk_size.
Proof.
  intros Hmax Hs Hlen. unfold sentence_end, last_terminator.
  set (e := start + max_chunk_size).
  assert (He : 0 <= e <= len text) by (unfold e; lia).
  pose proof (rfind_range text [DOT; SPACE] start e Hs He) as H1.
  pose proof (rfind_range text [QUESTION; SPACE] start e Hs He) as H2.
  pose proof (rfind_range text [BANG; SPACE] start e Hs He) as H3.
  pose proof (rfind_range text [DOT; NEWLINE] start e Hs He) as H4.
  pose proof (rfind_range text [QUESTION; NEWLINE] start e Hs He) as H5.
  pose proof (rfind_range text [BANG; NEWLINE] start e Hs He) as H6.
  pose proof (rfind_range text [SPACE] start e Hs He) as H7.
  change (len [DOT; SPACE]) with 2 in H1.
  change (len [QUESTION; SPACE]) with 2 in H2.
  change (len [BANG; SPACE]) with 2 in H3.
  change (len [DOT; NEWLINE]) with 2 in H4.
  change (len [QUESTION; NEWLINE]) with 2 in H5.
  change (len [BANG; NEWLINE]) with 2 in H6.
  change (len [SPACE]) with 1 in H7.
  destruct (Z.eqb_spec (Z.max (rfind text [DOT; SPACE] start e)
     (Z.max (rfind text [QUESTION; SPACE] start e)
     (Z.max (rfind text [BANG; SPACE] start e)
     (Z.max (rfind text [DOT; NEWLINE] start e)
     (Z.max (rfind text [QUESTION; NEWLINE] start e)
            (rfind text [BANG; NEWLINE] start e)))))) (-1)) as [Hm | Hm].
  - destruct (Z.eqb_spec (rfind text [SPACE] start e) (-1)); lia.
  - lia.
Qed.

(** More fuel never changes an answer. *)
Lemma chunk_loop_more_fuel text max_chunk_size fuel :
  forall start chunks result fuel',
    chunk_loop fuel text max_chunk_size start chunks = Some result ->
    (fuel <= fuel')%nat ->
    chunk_loop fuel' text max_chunk_size start chunks = Some result.
Proof.
  induction fuel as [| fuel IH]; intros start chunks result fuel' Hrun Hle.
  - discriminate.
  - destruct fuel' as [| fuel']; [lia |]. simpl in *.
    destruct (start <? len text); [| exact Hrun].
    destruct (len text <=? start + max_chunk_size); [exact Hrun |].
    eapply IH; [exact Hrun | lia].
Qed.

(** The invariant of the loop: the chunks collected so far are the text up
    to [start], each of them between 1 and [max_chunk_size] characters. *)
Lemma chunk_loop_spec text max_chunk_size :
  1 <= max_chunk_size ->
  forall fuel start chunks,
    0 <= start <= len text ->
    len text - start < Z.of_nat fuel ->
    concat chunks = take (Z.to_nat start) text ->
    Forall (fun c => 1 <= len c <= max_chunk_size) chunks ->
    chunks <> [] \/ start < len text ->
    exists result,
      chunk_loop fuel text max_chunk_size start chunks = Some result /\
      concat result = text /\
      Forall (fun c => 1 <= len c <= max_chunk_size) result /\
      result <> [].
Proof.
  intros Hmax. induction fuel as [| fuel IH];
    intros start chunks Hs Hfuel Hcat Hall Hne.
  - simpl in Hfuel. lia.
  - simpl. destruct (Z.ltb_spec start (len text)) as [Hlt | Hge].
    + destruct (Z.leb_spec (len text) (start + max_chunk_size)) as [Hlast | Hmore].
      * exists (chunks ++ [slice_from text start]). split; [reflexivity |].
        split; [| split].
        -- rewrite concat_app, Hcat. simpl. rewrite app_nil_r.
           apply take_slice_from. lia.
        -- apply Forall_app. split; [exact Hall |].
           constructor; [| constructor]. rewrite len_slice_from by lia. lia.
        -- destruct chunks; discriminate.
      * pose proof (sentence_end_range text max_chunk_size start Hmax
                      (proj1 Hs) Hmore) as Hse.
        apply IH.
        -- lia.
        -- lia.
        -- rewrite concat_app, Hcat. simpl. rewrite app_nil_r.
           apply take_slice; lia.
        -- apply Forall_app. split; [exact Hall |].
           constructor; [| constructor]. rewrite len_slice by lia. lia.
        -- left. destruct chunks; discriminate.
    + exists chunks. split; [reflexivity |]. split; [| split].
      * rewrite Hcat. apply take_ge. unfold len in *. lia.
      * exact Hall.
      * destruct Hne as [Hne | Hne]; [exact Hne | lia].
Qed.

(** What [chunk_text] returns for a bound of at least 1, in one place. *)
Lemma chunk_text_fuel_spec text max_chunk_size :
  1 <= max_chunk_size ->
  exists chunks,
    (forall fuel, (length text < fuel)%nat ->
       chunk_text_fuel fuel text max_chunk_size = Some chunks) /\
    concat chunks = text /\
    Forall (fun c => len c <= max_chunk_size) chunks /\
    (text <> [] -> Forall (fun c => c <> []) chunks) /\
    chunks <> [].
Proof.
  intros Hmax. unfold chunk_text_fuel.
  destruct (bool_decide (text = []) || (len text <=? max_chunk_size)) eqn:Hfast.
  - exists [text]. split; [reflexivity |]. split; [simpl; apply app_nil_r |].
    split; [| split; [| discriminate]].
    + constructor; [| constructor].
      apply orb_true_iff in Hfast. destruct Hfast as [Hnil | Hle].
      * apply bool_decide_eq_true in Hnil. subst text. unfold len. simpl. lia.
      * apply Z.leb_le in Hle. exact Hle.
    + intros Hne. constructor; [exact Hne | constructor].
  - apply orb_false_iff in Hfast. destruct Hfast as [Hnil Hle].
    apply Z.leb_gt in Hle.
    destruct (chunk_loop_spec text max_chunk_size Hmax (S (length text)) 0 [])
      as (result & Hrun & Hcat & Hall & Hne).
    + pose proof (len_nonneg text). lia.
    + unfold len. lia.
    + reflexivity.
    + constructor.
    + right. lia.
    + exists result. split; [| split; [exact Hcat | split; [| split]]].
      * intros fuel Hfuel. eapply chunk_loop_more_fuel; [exact Hrun | lia].
      * eapply Forall_impl; [exact Hall |]. simpl. intros c Hc. lia.
      * intros _. eapply Forall_impl; [exact Hall |]. simpl.
        intros c Hc ->. unfold len in Hc. simpl in Hc. lia.
      * exact Hne.
Qed.

(** A text that fits the bound never enters the loop. *)
Lemma chunk_text_fast_path text max_chunk_size fuel :
  len text <= max_chunk_size ->
  chunk_text_fuel fuel text max_chunk_size = Some [text].
Proof.
  intros Hle. unfold chunk_text_fuel.
  apply Z.leb_le in Hle. rewrite Hle, orb_true_r. reflexivity.
Qed.

Lemma chunk_text_spec text max_chunk_size :
  1 <= max_chunk_size ->
  exists chunks,
    chunk_text text max_chunk_size = Some chunks /\
    concat chunks = text /\
    Forall (fun c => len c <= max_chunk_size) chunks /\
    (text <> [] -> Forall (fun c => c <> []) chunks) /\
    chunks <> [].
Proof.
  intros Hmax.
  destruct (chunk_text_fuel_spec text max_chunk_size Hmax)
    as (chunks & Hrun & Hrest).
  exists chunks. split; [| exact Hrest]. apply Hrun. lia.
Qed.

End ChunkerFacts.

Section ChunkerClaims.
Import Chunker.

(** Termination of the loop alone: the distance from [start] to the end of
    the text bounds the number of iterations. *)
Lemma chunk_loop_total text max_chunk_size :
  1 <= max_chunk_size ->
  forall fuel start chunks,
    0 <= start <= len text ->
    len text - start < Z.of_nat fuel ->
    is_Some (chunk_loop fuel text max_chunk_size start chunks).
Proof.
  intros Hmax. induction fuel as [| fuel IH]; intros start chunks Hs Hfuel.
  - simpl in Hfuel. lia.
  - simpl. destruct (Z.ltb_spec start (len text)) as [Hlt | Hge]; [| eauto].
    destruct (Z.leb_spec (len text) (start + max_chunk_size)) as [Hlast | Hmore];
      [eauto |].
    pose proof (sentence_end_range text max_chunk_size start Hmax
                  (proj1 Hs) Hmore) as Hse.
    apply IH; lia.
Qed.

(** C5: for every text and every [max_size >= 1], [chunk_text] returns a
    list of chunks (the same list whatever iteration bound above the
    length of the text is given) that is not empty, whose elements are all
    at most [max_size] characters long, and whose elements are the
    consecutive pieces of the text in order. *)
Theorem chunk_text_bounded (text : str) (max_size : Z) :
  1 <= max_size ->
  exists chunks,
    (forall fuel, (length text < fuel)%nat ->
       chunk_text_fuel fuel text max_size = Some chunks) /\
    chunks <> [] /\
    Forall (fun c => len c <= max_size) chunks /\
    concat chunks = text.
Proof.
  intros Hmax.
  destruct (chunk_text_fuel_spec text max_size Hmax)
    as (chunks & Hrun & Hcat & Hall & _ & Hne).
  exists chunks. auto.
Qed.

Lemma chunk_text_bounded_witness :
  1 <= 10 /\
  exists chunks,
    (forall fuel, (length (lit "Hello. World? Yes! no more") < fuel)%nat ->
       chunk_text_fuel fuel (lit "Hello. World? Yes! no more") 10
       = Some chunks) /\
    chunks <> [] /\
    Forall (fun c => len c <= 10) chunks /\
    concat chunks = lit "Hello. World? Yes! no more".
Proof.
  split; [lia |].
  apply (chunk_text_bounded (lit "Hello. World? Yes! no more") 10). lia.
Defined.

(** C6: for every text and every [max_size >= 1] the loop of [chunk_text]
    terminates.  In an iteration that does not leave the loop the next
    offset, [sentence_end + 1], is at least [start + 1] and stays inside
    the text, whichever search fixed the boundary; so an iteration bound
    above the number of characters left is never hit, in the loop and in
    [chunk_text] itself. *)
Theorem chunk_loop_terminates (text : str) (max_size : Z) :
  1 <= max_size ->
  (forall start, 0 <= start -> start + max_size < len text ->
     start + 1 <= sentence_end text max_size start + 1 <= len text) /\
  (forall fuel start chunks,
     0 <= start <= len text -> len text - start < Z.of_nat fuel ->
     is_Some (chunk_loop fuel text max_size start chunks)) /\
  (forall fuel, (length text < fuel)%nat ->
     is_Some (chunk_text_fuel fuel text max_size)).
Proof.
  intros Hmax. split; [| split].
  - intros start Hs Hmore.
    pose proof (sentence_end_range text max_size start Hmax Hs Hmore). lia.
  - apply chunk_loop_total. exact Hmax.
  - intros fuel Hfuel. unfold chunk_text_fuel.
    destruct (bool_decide (text = []) || (len text <=? max_size)); [eauto |].
    apply chunk_loop_total; [exact Hmax | |].
    + pose proof (len_nonneg text). lia.
    + unfold len. lia.
Qed.

Lemma chunk_loop_terminates_witness :
  is_Some (chunk_text_fuel 27 (lit "abcdefghijklmnopqrstuvwxyz") 1).
Proof.
  apply (chunk_loop_terminates (lit "abcdefghijklmnopqrstuvwxyz") 1);
    simpl; lia.
Defined.

(** C7: for every text and every [max_size >= 1], the chunks returned by
    [chunk_text], concatenated with no separator, are the text itself.  In
    every iteration the chunk that is appended starts at the current offset
    and ends just before the next one, so the text up to the current
    offset followed by the chunk is the text up to the next offset. *)
Theorem chunk_text_concat (text : str) (max_size : Z) :
  1 <= max_size ->
  (exists chunks,
     chunk_text text max_size = Some chunks /\ concat chunks = text) /\
  (forall start, 0 <= start -> start + max_size < len text ->
     let next := sentence_end text max_size start + 1 in
     take (Z.to_nat start) text ++ slice text start next
     = take (Z.to_nat next) text).
Proof.
  intros Hmax. split.
  - destruct (chunk_text_spec text max_size Hmax)
      as (chunks & Hrun & Hcat & _).
    exists chunks. auto.
  - intros start Hs Hmore next.
    pose proof (sentence_end_range text max_size start Hmax Hs Hmore).
    apply take_slice; unfold next; lia.
Qed.

Lemma chunk_text_concat_witness :
  exists chunks,
    chunk_text (lit "One. Two? Three! four five six") 7 = Some chunks /\
    concat chunks = lit "One. Two? Three! four five six".
Proof.
  apply (chunk_text_concat (lit "One. Two? Three! four five six") 7). lia.
Defined.

(** C9: for every text with [len(text) <= max_size], the empty text
    included, [chunk_text] returns the one-element list [[text]] before
    the loop is entered, whatever the iteration bound. *)
Theorem chunk_text_short (text : str) (max_size : Z) :
  len text <= max_size ->
  (forall fuel, chunk_text_fuel fuel text max_size = Some [text]) /\
  chunk_text text max_size = Some [text].
Proof.
  intros Hle. split.
  - intros fuel. apply chunk_text_fast_path. exact Hle.
  - apply chunk_text_fast_path. exact Hle.
Qed.

Lemma chunk_text_short_witness :
  chunk_text (lit "short text") 450 = Some [lit "short text"] /\
  chunk_text [] 0 = Some [[]].
Proof.
  split.
  - apply (chunk_text_short (lit "short text") 450). vm_compute. discriminate.
  - apply (chunk_text_short [] 0). vm_compute. discriminate.
Defined.

End ChunkerClaims.

(** ** Properties of the translator *)

Section TranslatorFacts.
Context `{RT : Runtime}.

Lemma failures_app (d1 d2 : list event) :
  failures (d1 ++ d2) = failures d1 + failures d2.
Proof.
  induction d1 as [| e d1 IH]; simpl; [reflexivity |]. rewrite IH. lia.
Qed.

Lemma failures_nonneg (d : list event) : 0 <= failures d.
Proof.
  induction d as [| e d IH]; simpl; [lia |].
  destruct (primary_failed e); lia.
Qed.

Lemma session_step_refl (s : state) : session_step s s [].
Proof.
  constructor; simpl.
  - symmetry. apply app_nil_r.
  - lia.
  - auto.
  - intros _. constructor.
Qed.

Lemma session_step_trans (s1 s2 s3 : state) (d1 d2 : list event) :
  session_step s1 s2 d1 -> session_step s2 s3 d2 ->
  session_step s1 s3 (d1 ++ d2).
Proof.
  intros [T1 C1 F1 S1] [T2 C2 F2 S2]. constructor.
  - rewrite T2, T1. symmetry. apply app_assoc.
  - rewrite C2, C1, failures_app. lia.
  - auto.
  - intros Hflag. apply Forall_app. split; [apply S1 | apply S2]; auto.
Qed.

(** [google_translate] always returns, leaves the session as it is and
    makes exactly one request. *)
Lemma google_translate_run (text to_lang from_lang : str) (s : state) :
  google_translate text to_lang from_lang s
  = (Ok (google_result text (google_answer text to_lang from_lang s)),
     after_google text to_lang from_lang s).
Proof.
  unfold google_translate, try_except, bind, google_get, after_google,
    google_answer, google_result, lift, ret.
  destruct (requests_get (google_url text to_lang from_lang) (world s))
    as [[response |] w]; simpl; [| reflexivity].
  destruct (negb (status_code response =? 200)); [reflexivity |].
  destruct (json_of response) as [result |]; [| reflexivity].
  destruct (google_parse result); reflexivity.
Qed.

Lemma google_step (text to_lang from_lang : str) (s : state) :
  session_step s (after_google text to_lang from_lang s)
    [EvGoogle to_lang from_lang text (google_answer text to_lang from_lang s)].
Proof.
  constructor; simpl; auto.
  - lia.
  - intros _. constructor; [reflexivity | constructor].
Qed.

Lemma sleep_step (ms : Z) (s : state) :
  session_step s (log (EvSleep ms) s) [EvSleep ms].
Proof.
  constructor; simpl; auto.
  - lia.
  - intros _. constructor; [reflexivity | constructor].
Qed.

(** If the secondary backend raised for [chunk], [chunk] itself is
    returned. *)
Lemma google_result_raised (text : str) (r : response http_response) :
  google_raised r = true -> google_result text r = text.
Proof.
  unfold google_raised, google_result.
  destruct r as [response |]; [| reflexivity].
  destruct (status_code response =? 200); [| reflexivity]. simpl.
  destruct (json_of response) as [result |]; [| reflexivity].
  destruct (google_parse result); [discriminate | reflexivity].
Qed.

Lemma google_raised_keeps (to_lang from_lang chunk : str) (s : state)
    (before : list event) (r : response http_response) :
  Forall not_google before ->
  In (EvGoogle to_lang from_lang chunk r)
     (before ++
      [EvGoogle to_lang from_lang chunk
         (google_answer chunk to_lang from_lang s)]) ->
  google_raised r = true ->
  google_result chunk (google_answer chunk to_lang from_lang s) = chunk.
Proof.
  intros Hbefore Hin Hraised. apply in_app_or in Hin.
  destruct Hin as [Hin | Hin].
  - rewrite Forall_forall in Hbefore.
    destruct (Hbefore _ (proj2 (list_elem_of_In _ _) Hin)).
  - destruct Hin as [Heq | []]. injection Heq as Heq. rewrite Heq.
    apply google_result_raised. exact Hraised.
Qed.

Lemma google_chunk_spec (to_lang from_lang : str) :
  chunk_body_spec to_lang from_lang (google_chunk to_lang from_lang).
Proof.
  intros chunk acc s. unfold google_chunk, bind, sleep, ret.
  rewrite google_translate_run.
  eexists _, ([EvSleep 500] ++ [_]), _. split; [reflexivity |].
  split; [| split; [reflexivity | split]].
  - eapply session_step_trans; [apply sleep_step | apply google_step].
  - intros r. apply google_raised_keeps. repeat constructor.
  - constructor; [exact I |]. constructor; [reflexivity | constructor].
Qed.

Lemma translate_chunk_spec (to_lang from_lang : str) :
  chunk_body_spec to_lang from_lang (translate_chunk to_lang from_lang).
Proof.
  intros chunk acc s.
  unfold translate_chunk, bind, try_except, sleep, get_use_google,
    primary_translate, incr_fail_count, set_use_google, ret.
  simpl.
  destruct (use_google_translate (self s)) eqn:Hflag.
  - rewrite google_translate_run.
    eexists _, ([EvSleep 500] ++ [_]), _. split; [reflexivity |].
    split; [| split; [reflexivity | split]].
    + eapply session_step_trans; [apply sleep_step | apply google_step].
    + intros r. apply google_raised_keeps. repeat constructor.
    + constructor; [exact I |]. constructor; [reflexivity | constructor].
  - destruct (translator_translate to_lang from_lang chunk (world s))
      as [[translated |] w] eqn:Hprimary; simpl; rewrite ?Hprimary; simpl.
    + destruct (quota_exceeded translated) eqn:Hquota.
      * rewrite google_translate_run.
        eexists _, ([EvSleep 500; EvPrimary to_lang from_lang chunk
                       (Returns translated)] ++ [_]), _.
        split; [reflexivity |]. split; [| split; [reflexivity | split]].
        -- constructor; simpl.
           ++ rewrite <- !app_assoc. reflexivity.
           ++ rewrite Hquota. cbn [primary_failed]. lia.
           ++ auto.
           ++ congruence.
        -- intros r. apply google_raised_keeps. repeat constructor.
        -- constructor; [exact I |]. constructor; [reflexivity |].
           constructor; [reflexivity | constructor].
      * eexists _, [EvSleep 500; EvPrimary to_lang from_lang chunk
                      (Returns translated)], _.
        split; [reflexivity |]. split; [| split; [reflexivity | split]].
        -- constructor; simpl.
           ++ rewrite <- !app_assoc. reflexivity.
           ++ rewrite Hquota. cbn [primary_failed]. lia.
           ++ auto.
           ++ congruence.
        -- intros r [Heq | [Heq | []]]; discriminate.
        -- constructor; [exact I |]. constructor; [reflexivity | constructor].
    + rewrite google_translate_run.
      eexists _, ([EvSleep 500; EvPrimary to_lang from_lang chunk Raises]
                  ++ [_]), _.
      split; [reflexivity |]. split; [| split; [reflexivity | split]].
      * constructor; simpl.
        -- rewrite <- !app_assoc. reflexivity.
        -- cbn [primary_failed]. lia.
        -- auto.
        -- congruence.
      * intros r. apply google_raised_keeps. repeat constructor.
      * constructor; [exact I |]. constructor; [reflexivity |].
        constructor; [reflexivity | constructor].
Qed.

(** A loop over chunks whose body behaves as above. *)
Lemma for_each_spec (to_lang from_lang : str)
    (body : str -> list str -> M (list str)) :
  chunk_body_spec to_lang from_lang body ->
  forall chunks acc s, exists vs delta s',
    for_each chunks body acc s = (Ok (acc ++ vs), s') /\
    session_step s s' delta /\
    translation_cache (self s') = translation_cache (self s) /\
    (forall chunk r,
       In (EvGoogle to_lang from_lang chunk r) delta ->
       google_raised r = true -> In chunk vs) /\
    Forall (fun e => exists c, In c chunks /\ about c e) delta.
Proof.
  intros Hbody. induction chunks as [| c chunks IH]; intros acc s.
  - exists [], [], s. simpl. unfold ret. rewrite app_nil_r.
    split; [reflexivity |]. split; [apply session_step_refl |].
    split; [reflexivity |]. split; [intros chunk r [] | constructor].
  - destruct (Hbody c acc s) as (v & d1 & s1 & Hrun1 & Hstep1 & Hc1 & Hkeep & Hab).
    destruct (IH (acc ++ [v]) s1)
      as (vs & d2 & s2 & Hrun2 & Hstep2 & Hc2 & Hkeep2 & Hab2).
    exists (v :: vs), (d1 ++ d2), s2. simpl. unfold bind.
    rewrite Hrun1, Hrun2, <- app_assoc. split; [reflexivity |].
    split; [eapply session_step_trans; eassumption |].
    split; [congruence |]. split.
    + intros chunk r Hin Hraised. apply in_app_or in Hin.
      destruct Hin as [Hin | Hin].
      * left. rewrite Forall_forall in Hab.
        assert (Hc : about c (EvGoogle to_lang from_lang chunk r))
          by (apply Hab, list_elem_of_In, Hin).
        simpl in Hc. subst c. exact (Hkeep r Hin Hraised).
      * right. exact (Hkeep2 chunk r Hin Hraised).
    + apply Forall_app. split.
      * eapply Forall_impl; [exact Hab |]. intros e He. exists c.
        split; [left; reflexivity | exact He].
      * eapply Forall_impl; [exact Hab2 |]. intros e (c' & Hin & He).
        exists c'. split; [right; exact Hin | exact He].
Qed.

Lemma join_occurs (sep c : str) (parts : list str) :
  In c parts -> occurs_in c (join sep parts).
Proof.
  induction parts as [| p parts IH]; intros Hin; [destruct Hin |].
  destruct parts as [| q parts].
  - destruct Hin as [-> | []]. exists [], []. simpl. symmetry. apply app_nil_r.
  - change (join sep (p :: q :: parts)) with (p ++ sep ++ join sep (q :: parts)).
    destruct Hin as [-> | Hin].
    + exists [], (sep ++ join sep (q :: parts)). reflexivity.
    + destruct (IH Hin) as (pre & post & Heq). rewrite Heq.
      exists (p ++ sep ++ pre), post. rewrite <- !app_assoc. reflexivity.
Qed.

Lemma occurs_in_nonempty (c v : str) : occurs_in c v -> c <> [] -> v <> [].
Proof.
  intros (pre & post & ->) Hc Hnil.
  apply app_eq_nil in Hnil. destruct Hnil as [_ Hnil].
  apply app_eq_nil in Hnil. destruct Hnil as [Hnil _]. auto.
Qed.

(** The chunker, called with the two bounds of the translator, returns. *)
Lemma run_chunk_text_ok (text : str) (max_chunk_size : Z) (s : state) :
  1 <= max_chunk_size ->
  exists chunks,
    run_chunk_text text max_chunk_size s = (Ok chunks, s) /\
    Chunker.chunk_text text max_chunk_size = Some chunks /\
    concat chunks = text /\
    (text <> [] -> Forall (fun c => c <> []) chunks).
Proof.
  intros Hmax.
  destruct (chunk_text_spec text max_chunk_size Hmax)
    as (chunks & Hrun & Hcat & _ & Hne & _).
  exists chunks. unfold run_chunk_text, run_loop. rewrite Hrun. auto.
Qed.

(** A text of one chunk, when the session still tries the primary backend. *)
Lemma translate_single_spec (text chunk to_lang from_lang : str) (s : state) :
  use_google_translate (self s) = false ->
  exists v delta s',
    translate_single text chunk to_lang from_lang s = (Ok v, s') /\
    session_step s s' delta /\
    translation_cache (self s')
    = <[cache_key text to_lang from_lang := v]> (translation_cache (self s)) /\
    (forall r, In (EvGoogle to_lang from_lang chunk r) delta ->
               google_raised r = true -> v = chunk) /\
    Forall (about chunk) delta.
Proof.
  intros Hflag.
  unfold translate_single, bind, try_except, primary_translate,
    incr_fail_count, set_use_google, cache_store, ret.
  destruct (translator_translate to_lang from_lang chunk (world s))
    as [[translated |] w] eqn:Hprimary; simpl.
  - destruct (quota_exceeded translated) eqn:Hquota.
    + rewrite google_translate_run. simpl.
      eexists _, ([EvPrimary to_lang from_lang chunk (Returns translated)]
                  ++ [_]), _.
      split; [reflexivity |]. split; [| split; [reflexivity | split]].
      * constructor; simpl.
        -- rewrite <- !app_assoc. reflexivity.
        -- rewrite Hquota. cbn [primary_failed]. lia.
        -- auto.
        -- congruence.
      * intros r. apply google_raised_keeps. repeat constructor.
      * constructor; [reflexivity |].
        constructor; [reflexivity | constructor].
    + eexists _, [EvPrimary to_lang from_lang chunk (Returns translated)], _.
      split; [reflexivity |]. split; [| split; [reflexivity | split]].
      * constructor; simpl.
        -- reflexivity.
        -- rewrite Hquota. lia.
        -- auto.
        -- congruence.
      * intros r [Heq | []]; discriminate.
      * constructor; [reflexivity | constructor].
  - rewrite google_translate_run. simpl.
    eexists _, ([EvPrimary to_lang from_lang chunk Raises] ++ [_]), _.
    split; [reflexivity |]. split; [| split; [reflexivity | split]].
    + constructor; simpl.
      * rewrite <- !app_assoc. reflexivity.
      * cbn [primary_failed]. lia.
      * auto.
      * congruence.
    + intros r. apply google_raised_keeps. repeat constructor.
    + constructor; [reflexivity |].
      constructor; [reflexivity | constructor].
Qed.

Lemma bind_ok {A B} (m : M A) (k : A -> M B) (s s' : state) (a : A) :
  m s = (Ok a, s') -> bind m k s = k a s'.
Proof. intros Hrun. unfold bind. rewrite Hrun. reflexivity. Qed.

Lemma try_except_ok {A} (m handler : M A) (s s' : state) (a : A) :
  m s = (Ok a, s') -> try_except m handler s = (Ok a, s').
Proof. intros Hrun. unfold try_except. rewrite Hrun. reflexivity. Qed.

Lemma about_nonempty (chunks : list str) (delta : list event) :
  Forall (fun c => c <> []) chunks ->
  Forall (fun e => exists c, In c chunks /\ about c e) delta ->
  Forall (fun e => exists c, c <> [] /\ about c e) delta.
Proof.
  intros Hne Hab. eapply Forall_impl; [exact Hab |].
  intros e (c & Hin & He). exists c. split; [| exact He].
  rewrite Forall_forall in Hne. apply Hne, list_elem_of_In, Hin.
Qed.

(** The loop over several chunks followed by the store in the cache. *)
Lemma loop_store_spec (text to_lang from_lang : str)
    (body : str -> list str -> M (list str)) (chunks : list str) (s : state) :
  chunk_body_spec to_lang from_lang body ->
  (text <> [] -> Forall (fun c => c <> []) chunks) ->
  path_spec text to_lang from_lang
    (bind (for_each chunks body []) (fun translated_chunks =>
     bind (cache_store (cache_key text to_lang from_lang)
             (join (lit " ") translated_chunks)) (fun _ =>
     ret (join (lit " ") translated_chunks)))) s.
Proof.
  intros Hbody Hne.
  destruct (for_each_spec to_lang from_lang body Hbody chunks [] s)
    as (vs & delta & s1 & Hrun & Hstep & Hcache & Hkeep & Hab).
  simpl in Hrun.
  eexists _, delta, _. split; [| split; [| split; [| split]]].
  - erewrite bind_ok by exact Hrun. reflexivity.
  - destruct Hstep as [T C F S]. constructor; simpl; auto.
  - simpl. rewrite Hcache. reflexivity.
  - intros chunk r Hin Hraised. eapply join_occurs, Hkeep; eassumption.
  - intros Htext. eapply about_nonempty; [apply Hne, Htext | exact Hab].
Qed.

Lemma translate_google_only_spec (text to_lang from_lang : str) (s : state) :
  path_spec text to_lang from_lang
    (translate_google_only text to_lang from_lang) s.
Proof.
  destruct (run_chunk_text_ok text 900 s) as (chunks & Hrun & _ & _ & Hne);
    [lia |].
  assert (Hloop : path_spec text to_lang from_lang
            (bind (for_each chunks (google_chunk to_lang from_lang) [])
               (fun translated_chunks =>
                bind (cache_store (cache_key text to_lang from_lang)
                        (join (lit " ") translated_chunks)) (fun _ =>
                ret (join (lit " ") translated_chunks)))) s)
    by (apply loop_store_spec; [apply google_chunk_spec | exact Hne]).
  unfold path_spec, translate_google_only.
  destruct chunks as [| chunk [| c2 rest]].
  - destruct Hloop as (v & delta & s' & Hm & Hrest).
    exists v, delta, s'. split; [| exact Hrest].
    apply try_except_ok. erewrite bind_ok by exact Hrun. exact Hm.
  - eexists _, [_], _. split; [| split; [| split; [| split]]].
    + apply try_except_ok. erewrite bind_ok by exact Hrun. cbv beta iota.
      erewrite bind_ok by apply google_translate_run. reflexivity.
    + destruct (google_step chunk to_lang from_lang s) as [T C F S].
      constructor; simpl; auto.
    + reflexivity.
    + intros c r [Heq | []] Hraised. injection Heq as Hc Hr. subst c.
      rewrite Hr, (google_result_raised _ _ Hraised).
      exists [], []. simpl. symmetry. apply app_nil_r.
    + intros Htext. constructor; [| constructor]. exists chunk.
      split; [| reflexivity].
      specialize (Hne Htext). inversion Hne; assumption.
  - destruct Hloop as (v & delta & s' & Hm & Hrest).
    exists v, delta, s'. split; [| exact Hrest].
    apply try_except_ok. erewrite bind_ok by exact Hrun. exact Hm.
Qed.

Lemma translate_primary_first_spec (text to_lang from_lang : str) (s : state) :
  use_google_translate (self s) = false ->
  path_spec text to_lang from_lang
    (translate_primary_first text to_lang from_lang) s.
Proof.
  intros Hflag.
  destruct (run_chunk_text_ok text 450 s) as (chunks & Hrun & _ & _ & Hne);
    [lia |].
  assert (Hloop : path_spec text to_lang from_lang
            (bind (for_each chunks (translate_chunk to_lang from_lang) [])
               (fun translated_chunks =>
                bind (cache_store (cache_key text to_lang from_lang)
                        (join (lit " ") translated_chunks)) (fun _ =>
                ret (join (lit " ") translated_chunks)))) s)
    by (apply loop_store_spec; [apply translate_chunk_spec | exact Hne]).
  unfold path_spec, translate_primary_first.
  destruct chunks as [| chunk [| c2 rest]].
  - destruct Hloop as (v & delta & s' & Hm & Hrest).
    exists v, delta, s'. split; [| exact Hrest].
    apply try_except_ok. erewrite bind_ok by exact Hrun. exact Hm.
  - destruct (translate_single_spec text chunk to_lang from_lang s Hflag)
      as (v & delta & s' & Hm & Hstep & Hcache & Hkeep & Hab).
    exists v, delta, s'. split; [| split; [| split; [| split]]].
    + apply try_except_ok. erewrite bind_ok by exact Hrun. exact Hm.
    + exact Hstep.
    + exact Hcache.
    + intros c r Hin Hraised.
      assert (Hc : about chunk (EvGoogle to_lang from_lang c r)).
      { rewrite Forall_forall in Hab. apply Hab, list_elem_of_In, Hin. }
      simpl in Hc. subst c. rewrite (Hkeep r Hin Hraised).
      exists [], []. simpl. symmetry. apply app_nil_r.
    + intros Htext. eapply Forall_impl; [exact Hab |]. intros e He.
      exists chunk. split; [| exact He].
      specialize (Hne Htext). inversion Hne; assumption.
  - destruct Hloop as (v & delta & s' & Hm & Hrest).
    exists v, delta, s'. split; [| exact Hrest].
    apply try_except_ok. erewrite bind_ok by exact Hrun. exact Hm.
Qed.

(** Everything the properties below need to know about one call. *)
Lemma translate_text_spec (text to_lang from_lang : str) (s : state) :
  exists v delta s',
    translate_text text to_lang from_lang s = (Ok v, s') /\
    session_step s s' delta /\
    (gave_up (self s) -> no_primary delta) /\
    (forall chunk r,
       In (EvGoogle to_lang from_lang chunk r) delta ->
       google_raised r = true ->
       occurs_in chunk v /\ v <> []) /\
    (text <> [] ->
     bool_decide (to_lang = lit "zh") && contains_chinese text = false ->
     translation_cache (self s') !! cache_key text to_lang from_lang = Some v).
Proof.
  unfold translate_text.
  destruct (bool_decide (text = [])) eqn:Hempty.
  { exists [], [], s. apply bool_decide_eq_true in Hempty.
    split; [reflexivity |]. split; [apply session_step_refl |].
    split; [intros _; constructor |]. split; [intros chunk r [] |].
    intros Hne. contradiction. }
  apply bool_decide_eq_false in Hempty.
  destruct (bool_decide (to_lang = lit "zh") && contains_chinese text) eqn:Hskip.
  { exists text, [], s.
    split; [reflexivity |]. split; [apply session_step_refl |].
    split; [intros _; constructor |]. split; [intros chunk r [] |].
    intros _ Hno. discriminate. }
  unfold bind at 1. unfold get_cache.
  destruct (translation_cache (self s) !! cache_key text to_lang from_lang)
    as [cached |] eqn:Hlookup.
  { exists cached, [], s.
    split; [reflexivity |]. split; [apply session_step_refl |].
    split; [intros _; constructor |]. split; [intros chunk r [] |].
    intros _ _. exact Hlookup. }
  unfold bind, get_fail_count, get_use_google, set_use_google.
  destruct ((3 <=? translation_fail_count (self s))
            || use_google_translate (self s)) eqn:Hgave.
  - match goal with
    | |- context [translate_google_only _ _ _ ?s0] =>
      destruct (translate_google_only_spec text to_lang from_lang s0)
        as (v & delta & s' & Hm & [T C F S] & Hcache & Hkeep & Hab)
    end.
    simpl in T, C, F, S, Hcache.
    exists v, delta, s'. split; [exact Hm |].
    split; [constructor; auto |]. split; [auto |]. split.
    + intros chunk r Hin Hraised.
      pose proof (Hkeep chunk r Hin Hraised) as Hocc.
      split; [exact Hocc |]. eapply occurs_in_nonempty; [exact Hocc |].
      specialize (Hab Hempty). rewrite Forall_forall in Hab.
      destruct (Hab _ (proj2 (list_elem_of_In _ _) Hin)) as (c & Hc & Hac).
      simpl in Hac. subst c. exact Hc.
    + intros _ _. rewrite Hcache. apply lookup_insert_eq.
  - apply orb_false_iff in Hgave. destruct Hgave as [Hcount Hflag].
    apply Z.leb_gt in Hcount.
    destruct (translate_primary_first_spec text to_lang from_lang s Hflag)
      as (v & delta & s' & Hm & Hstep & Hcache & Hkeep & Hab).
    exists v, delta, s'. split; [exact Hm |]. split; [exact Hstep |].
    split; [| split].
    + intros [Hge | Htrue]; [lia | congruence].
    + intros chunk r Hin Hraised.
      pose proof (Hkeep chunk r Hin Hraised) as Hocc.
      split; [exact Hocc |]. eapply occurs_in_nonempty; [exact Hocc |].
      specialize (Hab Hempty). rewrite Forall_forall in Hab.
      destruct (Hab _ (proj2 (list_elem_of_In _ _) Hin)) as (c & Hc & Hac).
      simpl in Hac. subst c. exact Hc.
    + intros _ _. rewrite Hcache. apply lookup_insert_eq.
Qed.

Lemma gave_up_step (s s' : state) (delta : list event) :
  session_step s s' delta -> gave_up (self s) -> gave_up (self s').
Proof.
  intros [T C F S] [Hcount | Hflag].
  - left. pose proof (failures_nonneg delta). lia.
  - right. auto.
Qed.

(** A whole session, one call after another. *)
Lemma translate_all_spec (requests : list (str * str * str)) :
  forall s, exists results delta s',
    translate_all requests s = (Ok results, s') /\
    session_step s s' delta /\
    (gave_up (self s) -> no_primary delta).
Proof.
  induction requests as [| [[text to_lang] from_lang] requests IH]; intros s.
  - exists [], [], s. split; [reflexivity |].
    split; [apply session_step_refl | intros _; constructor].
  - destruct (translate_text_spec text to_lang from_lang s)
      as (v & d1 & s1 & Hrun1 & Hstep1 & Hno1 & _).
    destruct (IH s1) as (vs & d2 & s2 & Hrun2 & Hstep2 & Hno2).
    exists (v :: vs), (d1 ++ d2), s2. split; [| split].
    + simpl. erewrite bind_ok by exact Hrun1.
      erewrite bind_ok by exact Hrun2. reflexivity.
    + eapply session_step_trans; eassumption.
    + intros Hgave. apply Forall_app. split; [exact (Hno1 Hgave) |].
      apply Hno2. eapply gave_up_step; eassumption.
Qed.

(** *** The sentinel test *)

Lemma startswith_app (sub rest : str) : startswith (sub ++ rest) sub = true.
Proof.
  induction sub as [| c sub IH]; simpl; [destruct rest; reflexivity |].
  rewrite N.eqb_refl. exact IH.
Qed.

Lemma str_in_middle (sub pre post : str) :
  str_in sub (pre ++ sub ++ post) = true.
Proof.
  induction pre as [| c pre IH]; cbn [app str_in].
  - destruct (sub ++ post) as [| c rest] eqn:Heq.
    + apply app_eq_nil in Heq. destruct Heq as [-> _]. reflexivity.
    + cbn [str_in]. rewrite <- Heq, startswith_app. reflexivity.
  - rewrite IH. apply orb_true_r.
Qed.

Lemma upper_app (a b : str) : upper (a ++ b) = upper a ++ upper b.
Proof. unfold upper. apply flat_map_app. Qed.

Lemma ascii_upper_small (c : N) :
  (ascii_upper c < 128)%N -> (c < 128)%N.
Proof.
  unfold ascii_upper.
  destruct ((97 <=? c)%N && (c <=? 122)%N) eqn:Hletter; [| auto].
  apply andb_true_iff in Hletter. destruct Hletter as [_ Hle].
  apply N.leb_le in Hle. lia.
Qed.

(** A string equal to an ASCII phrase up to case is upper-cased letter by
    letter, whatever the mapping outside ASCII. *)
Lemma upper_same_ignoring_case (mid phrase : str) :
  Forall (fun c => (ascii_upper c < 128)%N) phrase ->
  same_ignoring_case mid phrase ->
  upper mid = map ascii_upper phrase.
Proof.
  unfold same_ignoring_case. revert phrase.
  induction mid as [| c mid IH]; intros phrase Hascii Hsame.
  - exact Hsame.
  - destruct phrase as [| p phrase]; [discriminate |].
    simpl in Hsame. injection Hsame as Hc Hrest.
    inversion Hascii as [| ? ? Hp Hphrase]; subst.
    change (upper (c :: mid)) with (upper_char c ++ upper mid).
    rewrite (IH phrase Hphrase Hrest). unfold upper_char.
    assert (Hsmall : (c <? 128)%N = true).
    { apply N.ltb_lt, ascii_upper_small. rewrite Hc. exact Hp. }
    rewrite Hsmall, Hc. reflexivity.
Qed.

Lemma quota_detected (phrase response : str) :
  In phrase sentinel_phrases ->
  occurs_ignoring_case phrase response ->
  quota_exceeded response = true.
Proof.
  intros Hphrase (pre & mid & post & -> & Hsame).
  unfold quota_exceeded. rewrite !upper_app.
  assert (Hascii : Forall (fun c => (ascii_upper c < 128)%N) phrase).
  { destruct Hphrase as [<- | [<- | [<- | []]]];
      apply Forall_forall; intros c Hc; apply list_elem_of_In in Hc;
      vm_compute in Hc; repeat (destruct Hc as [<- | Hc]; [reflexivity |]);
      destruct Hc. }
  rewrite (upper_same_ignoring_case mid phrase Hascii Hsame).
  destruct Hphrase as [<- | [<- | [<- | []]]].
  - change (map ascii_upper (lit "MYMEMORY WARNING"))
      with (lit "MYMEMORY WARNING").
    rewrite str_in_middle. reflexivity.
  - change (map ascii_upper (lit "QUOTA EXCEEDED")) with (lit "QUOTA EXCEEDED").
    rewrite (str_in_middle (lit "QUOTA EXCEEDED")). apply orb_true_r.
  - change (map ascii_upper (lit "MYMEMORY WARNING: QUOTA EXCEEDED"))
      with (lit "MYMEMORY WARNING" ++ lit ": QUOTA EXCEEDED").
    rewrite <- (app_assoc (lit "MYMEMORY WARNING")).
    rewrite str_in_middle. reflexivity.
Qed.

End TranslatorFacts.

Section TranslatorClaims.
Context `{RT : Runtime}.

(** C8: when the target language is "zh" and the text contains a code point
    in U+4E00..U+9FFF, [translate_text] returns the text as it is and
    leaves the state as it is: no backend is called, nothing is stored,
    the trace does not grow.  The witness is the call on "你好". *)
Theorem translate_text_chinese_noop (text from_lang : str) (s : state) :
  existsb is_cjk text = true ->
  translate_text text (lit "zh") from_lang s = (Ok text, s).
Proof.
  intros Hcjk. unfold translate_text, contains_chinese.
  destruct (bool_decide (text = [])) eqn:Hempty.
  - apply bool_decide_eq_true in Hempty. subst text. discriminate.
  - rewrite Hcjk. rewrite bool_decide_eq_true_2 by reflexivity. reflexivity.
Qed.

(** C3: [translate_text] returns a string in every state of the world and
    of the session, for every text and pair of languages: it neither
    raises nor runs for ever.  If, during the call, the primary backend
    raised for a chunk and the secondary backend raised for it too (its
    request raised, or its answer could not be decoded), that chunk occurs
    unchanged in the string returned, which is then not empty. *)
Theorem translate_text_never_raises (text to_lang from_lang : str) (s : state) :
  exists v delta s',
    translate_text text to_lang from_lang s = (Ok v, s') /\
    trace s' = trace s ++ delta /\
    forall chunk r,
      In (EvPrimary to_lang from_lang chunk Raises) delta ->
      In (EvGoogle to_lang from_lang chunk r) delta ->
      google_raised r = true ->
      occurs_in chunk v /\ v <> [].
Proof.
  destruct (translate_text_spec text to_lang from_lang s)
    as (v & delta & s' & Hrun & [T _ _ _] & _ & Hkeep & _).
  exists v, delta, s'. split; [exact Hrun |]. split; [exact T |].
  intros chunk r _ Hgoogle Hraised. exact (Hkeep chunk r Hgoogle Hraised).
Qed.

(** C4 (amended): two calls of [translate_text] with the same text and
    languages.  The first returns a string [v]; the second returns the
    same [v] and leaves the state, trace included, as the first left it:
    it calls no backend.  Whenever the text is not empty and is not
    skipped as already Chinese, [v] is in the cache under the key made of
    the first 30 characters and the two languages after the first call.
    The first call itself may call backends more than once. *)
Theorem cached_translation_reused (text to_lang from_lang : str) (s : state) :
  exists v s1,
    translate_text text to_lang from_lang s = (Ok v, s1) /\
    translate_text text to_lang from_lang s1 = (Ok v, s1) /\
    (text <> [] ->
     bool_decide (to_lang = lit "zh") && contains_chinese text = false ->
     translation_cache (self s1)
       !! (slice text 0 30 ++ lit "_" ++ from_lang ++ lit "_" ++ to_lang)
     = Some v).
Proof.
  destruct (translate_text_spec text to_lang from_lang s)
    as (v & delta & s1 & Hrun & _ & _ & _ & Hcache).
  exists v, s1. split; [exact Hrun |].
  unfold translate_text in Hrun |- *.
  destruct (bool_decide (text = [])) eqn:Hempty.
  { injection Hrun as <- <-. split; [reflexivity |].
    apply bool_decide_eq_true in Hempty. intros Hne. contradiction. }
  apply bool_decide_eq_false in Hempty.
  destruct (bool_decide (to_lang = lit "zh") && contains_chinese text) eqn:Hskip.
  { injection Hrun as <- <-. split; [reflexivity |]. intros _ Hno. discriminate. }
  specialize (Hcache Hempty eq_refl). split; [| intros _ _; exact Hcache].
  unfold bind at 1. unfold get_cache. rewrite Hcache. reflexivity.
Qed.

(** C1: a session is a sequence of [translate_text] calls on one
    instance.  Over any such sequence the failure count never decreases
    and the flag, once set, stays set.  If at some point the flag is set
    or the count has reached 3, none of the calls made from then on calls
    the primary backend.  In particular, once three calls of the primary
    backend have failed in a session whose count started at 0 or above,
    no later call of [translate_text] calls the primary backend. *)
Theorem sticky_fallback_skips_primary
    (requests : list (str * str * str)) (s : state) :
  exists results delta s',
    translate_all requests s = (Ok results, s') /\
    trace s' = trace s ++ delta /\
    translation_fail_count (self s) <= translation_fail_count (self s') /\
    (use_google_translate (self s) = true ->
     use_google_translate (self s') = true) /\
    (gave_up (self s) -> no_primary delta) /\
    (0 <= translation_fail_count (self s) -> 3 <= failures delta ->
     forall later, exists results' delta' s'',
       translate_all later s' = (Ok results', s'') /\
       trace s'' = trace s' ++ delta' /\
       no_primary delta').
Proof.
  destruct (translate_all_spec requests s)
    as (results & delta & s' & Hrun & [T C F S] & Hno).
  exists results, delta, s'. split; [exact Hrun |]. split; [exact T |].
  split; [pose proof (failures_nonneg delta); lia |].
  split; [exact F |]. split; [exact Hno |].
  intros Hstart Hthree later.
  destruct (translate_all_spec later s')
    as (results' & delta' & s'' & Hrun' & [T' _ _ _] & Hno').
  exists results', delta', s''. split; [exact Hrun' |]. split; [exact T' |].
  apply Hno'. left. lia.
Qed.

(** C2: the primary backend answers a chunk with a text in which one of
    the sentinel phrases occurs, in any mix of upper and lower case, while
    the session still uses the primary backend.  Then the iteration of the
    loop over chunks adds 1 to the failure count, sets the flag, and
    appends what [google_translate] returns for that chunk.  A call of
    [translate_text] on a text of one chunk that reaches the primary
    backend does the same, returns that value and stores it in the
    cache. *)
Theorem quota_message_falls_back
    (phrase answer chunk to_lang from_lang : str) (s : state) (w : World) :
  In phrase sentinel_phrases ->
  occurs_ignoring_case phrase answer ->
  use_google_translate (self s) = false ->
  translator_translate to_lang from_lang chunk (world s) = (Returns answer, w) ->
  let translated :=
    google_result chunk
      (fst (requests_get (google_url chunk to_lang from_lang) w)) in
  (forall translated_chunks, exists s',
     translate_chunk to_lang from_lang chunk translated_chunks s
     = (Ok (translated_chunks ++ [translated]), s') /\
     translation_fail_count (self s') = translation_fail_count (self s) + 1 /\
     use_google_translate (self s') = true) /\
  (chunk <> [] ->
   bool_decide (to_lang = lit "zh") && contains_chinese chunk = false ->
   translation_cache (self s) !! cache_key chunk to_lang from_lang = None ->
   translation_fail_count (self s) < 3 ->
   len chunk <= 450 ->
   exists s',
     translate_text chunk to_lang from_lang s = (Ok translated, s') /\
     translation_fail_count (self s') = translation_fail_count (self s) + 1 /\
     use_google_translate (self s') = true /\
     translation_cache (self s') !! cache_key chunk to_lang from_lang
     = Some translated).
Proof.
  intros Hphrase Hoccurs Hflag Hprimary translated.
  pose proof (quota_detected phrase answer Hphrase Hoccurs) as Hquota.
  split.
  - intros translated_chunks.
    unfold translate_chunk, bind, try_except, sleep, get_use_google,
      primary_translate, incr_fail_count, set_use_google, ret.
    simpl. rewrite Hflag. simpl. rewrite Hprimary. simpl. rewrite Hquota.
    rewrite google_translate_run. eexists. split; [reflexivity |].
    split; reflexivity.
  - intros Hne Hskip Hmiss Hcount Hshort.
    unfold translate_text. rewrite bool_decide_eq_false_2 by exact Hne.
    rewrite Hskip. unfold bind at 1. unfold get_cache. rewrite Hmiss.
    unfold bind at 1. unfold get_fail_count.
    unfold bind at 1. unfold get_use_google.
    rewrite Hflag, orb_false_r.
    destruct (Z.leb_spec 3 (translation_fail_count (self s))); [lia |].
    unfold translate_primary_first, try_except, bind at 1.
    unfold run_chunk_text, run_loop.
    unfold Chunker.chunk_text. rewrite chunk_text_fast_path by exact Hshort.
    unfold translate_single, bind, try_except, primary_translate,
      incr_fail_count, set_use_google, cache_store, ret.
    cbv beta. rewrite Hprimary. simpl. rewrite Hquota.
    rewrite google_translate_run. simpl. eexists. split; [reflexivity |].
    split; [reflexivity |]. split; [reflexivity |]. apply lookup_insert_eq.
Qed.

End TranslatorClaims.

(** ** The properties at work in the scripted world *)

Lemma translate_text_chinese_noop_witness :
  existsb is_cjk NI_HAO = true /\
  translate_text NI_HAO (lit "zh") (lit "en") (start offline init)
  = (Ok NI_HAO, start offline init).
Proof.
  split; [reflexivity |].
  apply (translate_text_chinese_noop NI_HAO (lit "en") (start offline init)).
  reflexivity.
Defined.

Lemma translate_text_never_raises_witness :
  exists v s',
    translate_text hello zh en (start offline init) = (Ok v, s') /\
    occurs_in hello v /\ v <> [].
Proof.
  destruct (translate_text_never_raises hello zh en (start offline init))
    as (v & delta & s' & Hrun & Htrace & Hkeep).
  exists v, s'. split; [exact Hrun |].
  vm_compute in Hrun. injection Hrun as Hv Hs. subst s'.
  simpl in Htrace. subst delta.
  apply (Hkeep hello Raises);
    [left; reflexivity | right; left; reflexivity | reflexivity].
Defined.

(** Two calls on the same text with both backends down: the first call
    tries the primary backend and then the secondary one. *)
Lemma backend_called_twice :
  let first := translate_text hello zh en (start offline init) in
  let second := translate_text hello zh en (snd first) in
  fst first = Ok hello /\ fst second = Ok hello /\
  ~ (backend_calls (trace (snd second)) <= 1)%nat.
Proof.
  vm_compute. split; [reflexivity |]. split; [reflexivity |]. lia.
Qed.

Lemma cached_translation_reused_witness :
  exists v s1,
    translate_text hello zh en (start offline init) = (Ok v, s1) /\
    translate_text hello zh en s1 = (Ok v, s1) /\
    translation_cache (self s1) !! lit "hello_en_zh" = Some v.
Proof.
  destruct (cached_translation_reused hello zh en (start offline init))
    as (v & s1 & Hfirst & Hsecond & Hcache).
  exists v, s1. split; [exact Hfirst |]. split; [exact Hsecond |].
  apply Hcache; [discriminate | reflexivity].
Defined.

Lemma sticky_fallback_skips_primary_witness :
  (exists results delta s',
     translate_all [(hello, zh, en)] (start offline three_failures)
     = (Ok results, s') /\
     trace s' = delta /\
     no_primary delta) /\
  (exists results delta s',
     translate_all [(hello, zh, en)]
       (snd (translate_all three_requests (start offline init)))
     = (Ok results, s') /\
     trace s'
     = trace (snd (translate_all three_requests (start offline init)))
       ++ delta /\
     no_primary delta).
Proof.
  split.
  - destruct (sticky_fallback_skips_primary [(hello, zh, en)]
                (start offline three_failures))
      as (results & delta & s' & Hrun & Htrace & _ & _ & Hno & _).
    exists results, delta, s'. split; [exact Hrun |]. split; [exact Htrace |].
    apply Hno. left. simpl. lia.
  - destruct (sticky_fallback_skips_primary three_requests
                (start offline init))
      as (results & delta & s' & Hrun & Htrace & _ & _ & _ & Hthree).
    rewrite Hrun. simpl snd.
    vm_compute in Hrun. injection Hrun as _ Hs. subst s'.
    simpl in Htrace. subst delta.
    apply Hthree; [simpl; lia | vm_compute; discriminate].
Defined.

Lemma quota_message_falls_back_witness :
  exists s',
    translate_text hello zh en (start quota_world init) = (Ok NI_HAO, s') /\
    translation_fail_count (self s') = 1 /\
    use_google_translate (self s') = true /\
    translation_cache (self s') !! lit "hello_en_zh" = Some NI_HAO.
Proof.
  refine (proj2 (quota_message_falls_back QUOTA_MESSAGE
            (lit "MyMemory Warning: quota exceeded!") hello zh en
            (start quota_world init)
            {| primary_answers := []; http_answers := [Returns google_hello] |}
            _ _ _ _) _ _ _ _ _).
  - right. right. left. reflexivity.
  - exists [], (lit "MyMemory Warning: quota exceeded"), (lit "!").
    split; reflexivity.
  - reflexivity.
  - reflexivity.
  - discriminate.
  - reflexivity.
  - reflexivity.
  - simpl. lia.
  - vm_compute. discriminate.
Defined.

(** ** Properties of the enrichment *)

Section EnrichmentFacts.
Context `{RT : Runtime}.

Lemma strip_arxiv_prefix_present (rest : str) :
  strip_arxiv_prefix (lit "arxiv:" ++ rest) = rest.
Proof.
  unfold strip_arxiv_prefix. rewrite startswith_app.
  unfold slice_from. rewrite adjust_end_id.
  - reflexivity.
  - rewrite len_app. pose proof (len_nonneg rest).
    change (len (lit "arxiv:")) with 6. lia.
Qed.

Lemma topic_names_objects (topics : list json) :
  forallb is_object topics = true ->
  exists names, topic_names topics = Returns names.
Proof.
  induction topics as [| topic topics IH]; intros Hall; simpl.
  - eauto.
  - simpl in Hall. apply andb_true_iff in Hall. destruct Hall as [Hobj Hall].
    destruct topic; try discriminate. simpl.
    destruct (IH Hall) as (names & ->). eauto.
Qed.

Lemma topics_of_well_formed (data : json) :
  well_formed_paper data = true -> exists topics, topics_of data = Returns topics.
Proof.
  destruct data as [| | | | | fields]; try discriminate.
  unfold well_formed_paper, topics_of, dict_get.
  destruct (assoc (lit "topics") fields) as [t |]; simpl; [| eauto].
  destruct t as [| b | n | t | topics | obj]; simpl.
  - eauto.
  - intros Hb. apply negb_true_iff in Hb. subst b. eauto.
  - destruct (n =? 0); simpl; [eauto | discriminate].
  - destruct (bool_decide (t = [])); simpl; [eauto | discriminate].
  - intros Hall. destruct (negb (bool_decide (topics = []))); [| eauto].
    destruct (topic_names_objects topics Hall) as (names & ->). eauto.
  - destruct (bool_decide (obj = [])); simpl; [eauto | discriminate].
Qed.

(** A well-formed answer gives all eight fields. *)
Lemma additional_data_well_formed (data : json) (s : state) :
  well_formed_paper data = true ->
  exists result,
    additional_data data s = (Ok result, s) /\
    forall field, In field enrichment_fields -> is_Some (result !! field).
Proof.
  intros Hwf. destruct (topics_of_well_formed data Hwf) as (topics & Htopics).
  destruct data as [| | | | | fields]; try discriminate.
  unfold additional_data, bind, lift, ret. rewrite Htopics. simpl.
  eexists. split; [reflexivity |].
  intros field Hin.
  repeat (destruct Hin as [<- | Hin]; [vm_compute; eauto |]).
  destruct Hin.
Qed.

Lemma topic_names_not_objects (topics : list json) :
  forallb is_object topics = false -> topic_names topics = Raises.
Proof.
  induction topics as [| topic topics IH]; intros Hall; [discriminate |].
  simpl in Hall. destruct topic; simpl; try reflexivity.
  simpl in Hall. rewrite (IH Hall). reflexivity.
Qed.

Lemma topics_of_malformed (fields : list (str * json)) :
  well_formed_paper (JObj fields) = false -> topics_of (JObj fields) = Raises.
Proof.
  unfold well_formed_paper, topics_of, dict_get.
  destruct (assoc (lit "topics") fields) as [t |]; simpl; [| discriminate].
  destruct t as [| b | n | t | topics | obj]; simpl.
  - discriminate.
  - destruct b; [reflexivity | discriminate].
  - destruct (n =? 0); [discriminate | reflexivity].
  - destruct t; [discriminate | reflexivity].
  - intros Hall. destruct topics as [| topic topics]; [discriminate |].
    simpl. change (match topic_names (topic :: topics) with
                   | Returns names => Returns (JArr names)
                   | Raises => Raises
                   end = Raises).
    rewrite (topic_names_not_objects _ Hall). reflexivity.
  - destruct obj as [| [k v] obj]; [discriminate | reflexivity].
Qed.

(** An answer that is not a well-formed paper makes the dictionary literal
    raise. *)
Lemma additional_data_malformed (data : json) (s : state) :
  well_formed_paper data = false -> additional_data data s = (Exn, s).
Proof.
  intros Hwf. destruct data as [| | | | | fields]; try reflexivity.
  unfold additional_data, bind, lift, ret.
  rewrite (topics_of_malformed fields Hwf). reflexivity.
Qed.

(** C10: for every identifier [enrich_with_semantic_scholar] returns a
    mapping and never raises.  It makes one request, after a pause, to the
    URL built from the identifier without its leading "arxiv:" (an
    identifier with no such prefix is used as it is).  The mapping is empty
    when the request raises, when its status is not 200, and when the body
    of a 200 answer is not a JSON object with well-formed topics; for a
    200 answer whose body is such an object the mapping holds all eight
    enrichment fields. *)
Theorem enrich_never_raises (arxiv_id : str) (s : state) :
  let id := strip_arxiv_prefix arxiv_id in
  let url := semantic_scholar_url id in
  let answer := fst (requests_get url (world s)) in
  (forall rest, arxiv_id = lit "arxiv:" ++ rest -> id = rest) /\
  (startswith arxiv_id (lit "arxiv:") = false -> id = arxiv_id) /\
  exists result s',
    enrich_with_semantic_scholar arxiv_id s = (Ok result, s') /\
    trace s' = trace s ++ [EvSleep 1000; EvGet url answer] /\
    self s' = self s /\
    (answer = Raises -> result = ∅) /\
    (forall response,
       answer = Returns response -> status_code response <> 200 ->
       result = ∅) /\
    (forall response,
       answer = Returns response -> status_code response = 200 ->
       match json_body response with
       | Some data =>
         if well_formed_paper data
         then forall field, In field enrichment_fields ->
                is_Some (result !! field)
         else result = ∅
       | None => result = ∅
       end).
Proof.
  intros id url answer.
  split; [intros rest ->; apply strip_arxiv_prefix_present |].
  split; [intros Hno; unfold id, strip_arxiv_prefix; rewrite Hno; reflexivity |].
  unfold enrich_with_semantic_scholar. fold id. fold url.
  unfold try_except, bind, sleep, semantic_scholar_get, ret. simpl.
  subst answer.
  destruct (requests_get url (world s)) as [[response |] w]; simpl.
  - destruct (Z.eqb_spec (status_code response) 200) as [H200 | Hnot].
    + unfold json_of. destruct (json_body response) as [data |] eqn:Hbody; simpl.
      * destruct (well_formed_paper data) eqn:Hwf.
        -- match goal with
           | |- context [additional_data data ?s0] =>
             destruct (additional_data_well_formed data s0 Hwf)
               as (result & Hrun & Hfields)
           end.
           rewrite Hrun. exists result. eexists. split; [reflexivity |].
           split; [simpl; rewrite <- app_assoc; reflexivity |].
           split; [reflexivity |]. split; [discriminate |].
           split; [intros r [= <-] Hr; contradiction |].
           intros r [= <-] _. rewrite Hbody, Hwf. exact Hfields.
        -- rewrite additional_data_malformed by exact Hwf.
           exists ∅. eexists. split; [reflexivity |].
           split; [simpl; rewrite <- app_assoc; reflexivity |].
           split; [reflexivity |]. split; [discriminate |].
           split; [reflexivity |].
           intros r [= <-] _. rewrite Hbody, Hwf. reflexivity.
      * exists ∅. eexists. split; [reflexivity |].
        split; [simpl; rewrite <- app_assoc; reflexivity |].
        split; [reflexivity |]. split; [discriminate |].
        split; [reflexivity |].
        intros r [= <-] _. rewrite Hbody. reflexivity.
    + exists ∅. eexists. split; [reflexivity |].
      split; [simpl; rewrite <- app_assoc; reflexivity |].
      split; [reflexivity |]. split; [discriminate |].
      split; [reflexivity |].
      intros r [= <-] H200. contradiction.
  - exists ∅. eexists. split; [reflexivity |].
    split; [simpl; rewrite <- app_assoc; reflexivity |].
    split; [reflexivity |]. split; [reflexivity |].
    split; [discriminate |]. discriminate.
Qed.

End EnrichmentFacts.

Lemma enrich_never_raises_witness :
  exists result s',
    enrich_with_semantic_scholar (lit "arxiv:1706.03762")
      (start scholar_world init) = (Ok result, s') /\
    trace s'
    = [EvSleep 1000;
       EvGet (lit "https://api.semanticscholar.org/v1/paper/arXiv:1706.03762")
         (Returns {| status_code := 200; json_body := Some paper_json |})] /\
    is_Some (result !! lit "citation_count") /\
    is_Some (result !! lit "topics").
Proof.
  destruct (enrich_never_raises (lit "arxiv:1706.03762")
              (start scholar_world init))
    as (Hstrip & _ & result & s' & Hrun & Htrace & _ & _ & _ & Hok).
  exists result, s'. split; [exact Hrun |].
  rewrite (Hstrip (lit "1706.03762") eq_refl) in Htrace, Hok.
  split; [exact Htrace |].
  specialize (Hok _ eq_refl eq_refl). simpl in Hok.
  split; apply Hok; simpl; tauto.
Defined.

(** ** More about the chunker *)

Section ChunkerBoundaries.
Import Chunker.

Lemma rfind_scan_found text sub lo k :
  rfind_scan text sub lo k <> -1 ->
  startswith (drop (Z.to_nat (rfind_scan text sub lo k)) text) sub = true.
Proof.
  induction k as [| k IH]; cbn [rfind_scan].
  - destruct (startswith (drop (Z.to_nat (lo + Z.of_nat 0)) text) sub)
      eqn:Hhere; [intros _; exact Hhere | congruence].
  - destruct (startswith (drop (Z.to_nat (lo + Z.of_nat (S k))) text) sub)
      eqn:Hhere; [intros _; exact Hhere | exact IH].
Qed.

(** Where [rfind] answers an index, the pattern is there. *)
Lemma rfind_found text sub start end_ :
  rfind text sub start end_ <> -1 ->
  startswith (drop (Z.to_nat (rfind text sub start end_)) text) sub = true.
Proof.
  unfold rfind. destruct (_ <? len sub); [congruence |].
  apply rfind_scan_found.
Qed.

Lemma startswith_cons (s : str) (a : N) (p : str) :
  startswith s (a :: p) = true ->
  exists s', s = a :: s' /\ startswith s' p = true.
Proof.
  destruct s as [| b s']; simpl; [discriminate |].
  intros H. apply andb_true_iff in H. destruct H as [Hab Hrest].
  apply N.eqb_eq in Hab. subst b. eauto.
Qed.

Lemma drop_cons_lookup (text : str) (n : nat) (a : N) (rest : str) :
  drop n text = a :: rest -> text !! n = Some a /\ drop (S n) text = rest.
Proof.
  revert text. induction n as [| n IH]; intros text Hdrop.
  - rewrite drop_0 in Hdrop. subst text. split; reflexivity.
  - destruct text as [| c text]; [discriminate |]. simpl in Hdrop.
    apply IH in Hdrop. exact Hdrop.
Qed.

(** A pattern of two characters found at [r]. *)
Lemma rfind_pair text a b start end_ :
  let r := rfind text [a; b] start end_ in
  0 <= start -> 0 <= end_ <= len text -> r <> -1 ->
  text !! Z.to_nat r = Some a /\ text !! Z.to_nat (r + 1) = Some b.
Proof.
  intros r Hs He Hr.
  assert (Hrange : start <= r).
  { destruct (rfind_range text [a; b] start end_ Hs He) as [H | H];
      [contradiction | exact (proj1 H)]. }
  pose proof (rfind_found text [a; b] start end_ Hr) as Hfound. fold r in Hfound.
  apply startswith_cons in Hfound. destruct Hfound as (s1 & Hdrop & Hfound).
  apply startswith_cons in Hfound. destruct Hfound as (s2 & -> & _).
  apply drop_cons_lookup in Hdrop. destruct Hdrop as [Ha Hdrop].
  apply drop_cons_lookup in Hdrop. destruct Hdrop as [Hb _].
  split; [exact Ha |]. replace (Z.to_nat (r + 1)) with (S (Z.to_nat r)) by lia.
  exact Hb.
Qed.

Lemma rfind_single text a start end_ :
  let r := rfind text [a] start end_ in
  r <> -1 -> text !! Z.to_nat r = Some a.
Proof.
  intros r Hr.
  pose proof (rfind_found text [a] start end_ Hr) as Hfound. fold r in Hfound.
  apply startswith_cons in Hfound. destruct Hfound as (s1 & Hdrop & _).
  apply drop_cons_lookup in Hdrop. exact (proj1 Hdrop).
Qed.

(** X1: The three kinds of cut of an iteration that goes on, in the order the
    loop prefers them: just after a sentence terminator that is followed
    by a space or a newline; else just after a space; else after exactly
    [max_size] characters. *)
Theorem sentence_end_kinds (text : str) (max_size start : Z) :
  1 <= max_size -> 0 <= start -> start + max_size < len text ->
  let cut := sentence_end text max_size start in
  (exists p w,
     In p [DOT; QUESTION; BANG] /\ In w [SPACE; NEWLINE] /\
     text !! Z.to_nat cut = Some p /\ text !! Z.to_nat (cut + 1) = Some w) \/
  (last_terminator text start (start + max_size) = -1 /\
   text !! Z.to_nat cut = Some SPACE) \/
  (last_terminator text start (start + max_size) = -1 /\
   rfind text [SPACE] start (start + max_size) = -1 /\
   cut = start + max_size - 1).
Proof.
  intros Hmax Hs Hmore cut. subst cut. unfold sentence_end.
  set (e := start + max_size).
  assert (He : 0 <= e <= len text) by (unfold e; lia).
  destruct (Z.eqb_spec (last_terminator text start e) (-1)) as [Hnone | Hsome].
  - right. destruct (Z.eqb_spec (rfind text [SPACE] start e) (-1)) as [Hno | Hsp].
    + right. auto.
    + left. split; [exact Hnone |]. apply rfind_single. exact Hsp.
  - left. unfold last_terminator in *.
    pose proof (rfind_pair text DOT SPACE start e Hs He) as H1.
    pose proof (rfind_pair text QUESTION SPACE start e Hs He) as H2.
    pose proof (rfind_pair text BANG SPACE start e Hs He) as H3.
    pose proof (rfind_pair text DOT NEWLINE start e Hs He) as H4.
    pose proof (rfind_pair text QUESTION NEWLINE start e Hs He) as H5.
    pose proof (rfind_pair text BANG NEWLINE start e Hs He) as H6.
    simpl in H1, H2, H3, H4, H5, H6.
    pose proof (rfind_range text [DOT; SPACE] start e Hs He) as R1.
    pose proof (rfind_range text [QUESTION; SPACE] start e Hs He) as R2.
    pose proof (rfind_range text [BANG; SPACE] start e Hs He) as R3.
    pose proof (rfind_range text [DOT; NEWLINE] start e Hs He) as R4.
    pose proof (rfind_range text [QUESTION; NEWLINE] start e Hs He) as R5.
    pose proof (rfind_range text [BANG; NEWLINE] start e Hs He) as R6.
    set (r1 := rfind text [DOT; SPACE] start e) in *.
    set (r2 := rfind text [QUESTION; SPACE] start e) in *.
    set (r3 := rfind text [BANG; SPACE] start e) in *.
    set (r4 := rfind text [DOT; NEWLINE] start e) in *.
    set (r5 := rfind text [QUESTION; NEWLINE] start e) in *.
    set (r6 := rfind text [BANG; NEWLINE] start e) in *.
    clearbody r1 r2 r3 r4 r5 r6.
    set (m := Z.max r1 (Z.max r2 (Z.max r3 (Z.max r4 (Z.max r5 r6))))) in *.
    assert (Hm : m = r1 \/ m = r2 \/ m = r3 \/ m = r4 \/ m = r5 \/ m = r6).
    { unfold m.
      repeat match goal with
      | |- context [Z.max ?a ?b] =>
        let E := fresh "E" in
        destruct (Z.max_dec a b) as [E | E]; rewrite E; clear E
      end; auto 10. }
    destruct Hm as [Hm | [Hm | [Hm | [Hm | [Hm | Hm]]]]];
      rewrite Hm in Hsome; rewrite Hm.
    + exists DOT, SPACE. destruct (H1 Hsome) as [Ha Hb].
      split; [simpl; auto |]. split; [simpl; auto |]. split; assumption.
    + exists QUESTION, SPACE. destruct (H2 Hsome) as [Ha Hb].
      split; [simpl; auto |]. split; [simpl; auto |]. split; assumption.
    + exists BANG, SPACE. destruct (H3 Hsome) as [Ha Hb].
      split; [simpl; auto |]. split; [simpl; auto |]. split; assumption.
    + exists DOT, NEWLINE. destruct (H4 Hsome) as [Ha Hb].
      split; [simpl; auto |]. split; [simpl; auto |]. split; assumption.
    + exists QUESTION, NEWLINE. destruct (H5 Hsome) as [Ha Hb].
      split; [simpl; auto |]. split; [simpl; auto |]. split; assumption.
    + exists BANG, NEWLINE. destruct (H6 Hsome) as [Ha Hb].
      split; [simpl; auto |]. split; [simpl; auto |]. split; assumption.
Qed.

End ChunkerBoundaries.

Section ChunkerEdges.
Import Chunker.

Lemma rfind_empty_window text sub start :
  0 <= start <= len text -> 1 <= len sub -> rfind text sub start start = -1.
Proof.
  intros Hs Hsub. unfold rfind.
  rewrite adjust_start_id, adjust_end_id by lia.
  destruct (Z.ltb_spec (start - start) (len sub)); [reflexivity | lia].
Qed.

Lemma sentence_end_zero text start :
  0 <= start <= len text -> sentence_end text 0 start = start - 1.
Proof.
  intros Hs. unfold sentence_end, last_terminator.
  replace (start + 0) with start by lia.
  rewrite !rfind_empty_window by (try exact Hs; unfold len; simpl; lia).
  reflexivity.
Qed.

Lemma chunk_loop_zero text :
  forall fuel start chunks,
    0 <= start < len text -> chunk_loop fuel text 0 start chunks = None.
Proof.
  induction fuel as [| fuel IH]; intros start chunks Hs; [reflexivity |].
  simpl. destruct (Z.ltb_spec start (len text)); [| lia].
  destruct (Z.leb_spec (len text) (start + 0)); [lia |].
  rewrite sentence_end_zero by lia.
  replace (start - 1 + 1) with start by lia. apply IH. exact Hs.
Qed.

(** X2: With a bound of 0 the loop of [chunk_text] makes no progress on a text
    that is not empty: the cut falls before [start], an empty chunk is
    appended and the offset stays where it was.  No number of iterations
    is enough. *)
Theorem chunk_text_zero_diverges (text : str) (fuel : nat) :
  text <> [] -> chunk_text_fuel fuel text 0 = None.
Proof.
  intros Hne. unfold chunk_text_fuel.
  rewrite bool_decide_eq_false_2 by exact Hne.
  assert (Hlen : 0 < len text).
  { unfold len. destruct text; [contradiction | simpl; lia]. }
  destruct (Z.leb_spec (len text) 0); [lia |]. simpl.
  apply chunk_loop_zero. lia.
Qed.

Lemma chunk_text_zero_diverges_witness :
  chunk_text_fuel 1000 (lit "ab") 0 = None.
Proof. apply (chunk_text_zero_diverges (lit "ab") 1000). discriminate. Defined.

Lemma concat_length_nonempty (chunks : list str) :
  Forall (fun c => c <> []) chunks ->
  (length chunks <= length (concat chunks))%nat.
Proof.
  induction 1 as [| c chunks Hc _ IH]; simpl; [lia |].
  rewrite length_app. destruct c; [contradiction | simpl; lia].
Qed.

(** X3: For a text that is not empty and a bound of at least 1, no chunk is
    empty, so there are at most as many chunks as characters. *)
Theorem chunk_text_no_empty_chunk (text : str) (max_size : Z) :
  1 <= max_size -> text <> [] ->
  exists chunks,
    chunk_text text max_size = Some chunks /\
    Forall (fun c => c <> []) chunks /\
    (length chunks <= length text)%nat.
Proof.
  intros Hmax Hne.
  destruct (chunk_text_spec text max_size Hmax)
    as (chunks & Hrun & Hcat & _ & Hall & _).
  exists chunks. split; [exact Hrun |]. split; [exact (Hall Hne) |].
  rewrite <- Hcat. apply concat_length_nonempty. exact (Hall Hne).
Qed.

Lemma chunk_text_no_empty_chunk_witness :
  exists chunks,
    chunk_text (lit "One. Two? Three! four five six") 7 = Some chunks /\
    Forall (fun c => c <> []) chunks /\
    (length chunks <= 30)%nat.
Proof.
  apply (chunk_text_no_empty_chunk (lit "One. Two? Three! four five six") 7);
    [lia | discriminate].
Defined.

Lemma startswith_In (s p : str) (c : N) :
  startswith s p = true -> In c p -> In c s.
Proof.
  revert s. induction p as [| a p IH]; intros s Hs Hin; [destruct Hin |].
  apply startswith_cons in Hs. destruct Hs as (s' & -> & Hs).
  destruct Hin as [<- | Hin]; [left; reflexivity | right; eauto].
Qed.

Lemma In_drop (text : str) (n : nat) (c : N) : In c (drop n text) -> In c text.
Proof.
  intros Hin. rewrite <- (take_drop n text). apply in_or_app. right. exact Hin.
Qed.

(** A pattern with a character the text does not have is not found. *)
Lemma rfind_absent text sub start end_ (c : N) :
  In c sub -> ~ In c text -> rfind text sub start end_ = -1.
Proof.
  intros Hsub Htext.
  destruct (Z.eq_dec (rfind text sub start end_) (-1)) as [H | H]; [exact H |].
  exfalso. apply Htext. eapply In_drop, startswith_In; [| exact Hsub].
  apply rfind_found. exact H.
Qed.

Lemma sentence_end_hard text max_chunk_size start :
  ~ In SPACE text -> ~ In NEWLINE text ->
  sentence_end text max_chunk_size start = start + max_chunk_size - 1.
Proof.
  intros Hsp Hnl. unfold sentence_end, last_terminator.
  rewrite (rfind_absent text [DOT; SPACE] _ _ SPACE) by (simpl; auto).
  rewrite (rfind_absent text [QUESTION; SPACE] _ _ SPACE) by (simpl; auto).
  rewrite (rfind_absent text [BANG; SPACE] _ _ SPACE) by (simpl; auto).
  rewrite (rfind_absent text [DOT; NEWLINE] _ _ NEWLINE) by (simpl; auto).
  rewrite (rfind_absent text [QUESTION; NEWLINE] _ _ NEWLINE) by (simpl; auto).
  rewrite (rfind_absent text [BANG; NEWLINE] _ _ NEWLINE) by (simpl; auto).
  rewrite (rfind_absent text [SPACE] _ _ SPACE) by (simpl; auto).
  reflexivity.
Qed.

Lemma chunk_loop_hard_cut text max_chunk_size :
  1 <= max_chunk_size -> ~ In SPACE text -> ~ In NEWLINE text ->
  forall fuel start chunks,
    0 <= start < len text ->
    len text - start < Z.of_nat fuel ->
    Forall (fun c => len c = max_chunk_size) chunks ->
    exists full last,
      chunk_loop fuel text max_chunk_size start chunks = Some (full ++ [last]) /\
      Forall (fun c => len c = max_chunk_size) full /\
      1 <= len last <= max_chunk_size.
Proof.
  intros Hmax Hsp Hnl. induction fuel as [| fuel IH];
    intros start chunks Hs Hfuel Hall.
  - simpl in Hfuel. lia.
  - simpl. destruct (Z.ltb_spec start (len text)); [| lia].
    destruct (Z.leb_spec (len text) (start + max_chunk_size)) as [Hlast | Hmore].
    + exists chunks, (slice_from text start). split; [reflexivity |].
      split; [exact Hall |]. rewrite len_slice_from by lia. lia.
    + rewrite (sentence_end_hard text max_chunk_size start Hsp Hnl).
      replace (start + max_chunk_size - 1 + 1) with (start + max_chunk_size)
        by lia.
      apply IH; [lia | lia |].
      apply Forall_app. split; [exact Hall |].
      constructor; [| constructor]. rewrite len_slice by lia. lia.
Qed.

(** X4: A text with neither a space nor a newline is cut by length alone: every
    chunk but the last has exactly [max_size] characters, and the last has
    between 1 and [max_size]. *)
Theorem chunk_text_hard_cut (text : str) (max_size : Z) :
  1 <= max_size -> text <> [] ->
  ~ In SPACE text -> ~ In NEWLINE text ->
  exists full last,
    chunk_text text max_size = Some (full ++ [last]) /\
    Forall (fun c => len c = max_size) full /\
    1 <= len last <= max_size.
Proof.
  intros Hmax Hne Hsp Hnl.
  assert (Hlen : 0 < len text).
  { unfold len. destruct text; [contradiction | simpl; lia]. }
  unfold chunk_text, chunk_text_fuel.
  rewrite bool_decide_eq_false_2 by exact Hne.
  destruct (Z.leb_spec (len text) max_size) as [Hshort | Hlong]; cbn [orb].
  - exists [], text. split; [reflexivity |]. split; [constructor | lia].
  - apply chunk_loop_hard_cut; try assumption.
    + lia.
    + unfold len. lia.
    + constructor.
Qed.

Lemma chunk_text_hard_cut_witness :
  exists full last,
    chunk_text (lit "abcdefghijklmnopqrstuvwxyz") 10 = Some (full ++ [last]) /\
    Forall (fun c => len c = 10) full /\
    1 <= len last <= 10.
Proof.
  apply (chunk_text_hard_cut (lit "abcdefghijklmnopqrstuvwxyz") 10);
    [lia | discriminate | |];
    vm_compute; intros H; repeat (destruct H as [H | H]; [discriminate |]);
    exact H.
Defined.

End ChunkerEdges.

(** ** More about the secondary backend *)

Section GoogleFacts.
Context `{RT : Runtime}.


(** X6: When the request raises, or its status is not 200, or the body of a
    200 answer is not JSON or cannot be walked as a list of segments,
    [google_translate] returns the text it was given. *)
Theorem google_translate_degrades (text to_lang from_lang : str) (s : state) :
  let answer := google_answer text to_lang from_lang s in
  (google_raised answer = true \/
   exists response, answer = Returns response /\ status_code response <> 200) ->
  fst (google_translate text to_lang from_lang s) = Ok text.
Proof.
  intros answer Hfail. rewrite google_translate_run. simpl. fold answer.
  destruct Hfail as [Hraised | (response & -> & Hstatus)].
  - rewrite google_result_raised by exact Hraised. reflexivity.
  - simpl. destruct (Z.eqb_spec (status_code response) 200); [contradiction |].
    reflexivity.
Qed.

Lemma google_sentences_segments (sentences : list json) (segments : list str) :
  Forall2 (fun sentence segment =>
             exists more, sentence = JArr (JStr segment :: more))
          sentences segments ->
  forall translated_text,
    google_sentences sentences translated_text
    = Returns (translated_text ++ concat segments).
Proof.
  induction 1 as [| sentence segment sentences segments (more & ->) _ IH];
    intros translated_text; simpl.
  - rewrite app_nil_r. reflexivity.
  - destruct (bool_decide (segment = [])) eqn:Hempty; simpl.
    + apply bool_decide_eq_true in Hempty. subst segment. apply IH.
    + rewrite IH, <- app_assoc. reflexivity.
Qed.

(** X7: For a 200 answer whose body is a list that starts with a list of
    sentences, each of them a list that starts with a translated segment,
    [google_translate] returns the segments concatenated in order. *)
Theorem google_translate_joins_segments
    (text to_lang from_lang : str) (s : state) (response : http_response)
    (sentences others : list json) (segments : list str) :
  google_answer text to_lang from_lang s = Returns response ->
  status_code response = 200 ->
  json_body response = Some (JArr (JArr sentences :: others)) ->
  Forall2 (fun sentence segment =>
             exists more, sentence = JArr (JStr segment :: more))
          sentences segments ->
  fst (google_translate text to_lang from_lang s) = Ok (concat segments).
Proof.
  intros Hanswer Hstatus Hbody Hsegments.
  rewrite google_translate_run. simpl. rewrite Hanswer. simpl.
  rewrite Hstatus. simpl. unfold json_of. rewrite Hbody. simpl.
  unfold google_parse. cbn [getitem0 iterate].
  rewrite (google_sentences_segments sentences segments Hsegments).
  reflexivity.
Qed.

End GoogleFacts.

Lemma google_translate_degrades_witness :
  fst (google_translate hello zh en (start offline init)) = Ok hello.
Proof.
  apply (google_translate_degrades hello zh en (start offline init)).
  left. reflexivity.
Defined.

Lemma google_translate_joins_segments_witness :
  fst (google_translate hello zh en (start quota_world init))
  = Ok (concat [NI_HAO]).
Proof.
  apply (google_translate_joins_segments hello zh en (start quota_world init)
           google_hello [JArr [JStr NI_HAO; JStr (lit "hello")]] []
           [NI_HAO]).
  - reflexivity.
  - reflexivity.
  - reflexivity.
  - constructor; [| constructor]. exists [JStr (lit "hello")]. reflexivity.
Defined.

(** ** More about the translator *)

Section TranslatorInvariants.
Context `{RT : Runtime}.


(** A call never removes or replaces an entry of the cache. *)
Lemma translate_text_cache_kept (text to_lang from_lang : str) (s : state)
    (k v : str) :
  translation_cache (self s) !! k = Some v ->
  translation_cache (self (snd (translate_text text to_lang from_lang s))) !! k
  = Some v.
Proof.
  intros Hk. unfold translate_text.
  destruct (bool_decide (text = [])); [exact Hk |].
  destruct (bool_decide (to_lang = lit "zh") && contains_chinese text);
    [exact Hk |].
  unfold bind at 1. unfold get_cache.
  destruct (translation_cache (self s) !! cache_key text to_lang from_lang)
    as [cached |] eqn:Hlookup; [exact Hk |].
  assert (Hne : cache_key text to_lang from_lang <> k) by congruence.
  unfold bind, get_fail_count, get_use_google, set_use_google.
  destruct ((3 <=? translation_fail_count (self s))
            || use_google_translate (self s)) eqn:Hgave.
  - match goal with
    | |- context [translate_google_only _ _ _ ?s0] =>
      destruct (translate_google_only_spec text to_lang from_lang s0)
        as (v' & delta & s' & Hm & _ & Hcache & _)
    end.
    rewrite Hm. simpl in Hcache |- *. rewrite Hcache.
    rewrite lookup_insert_ne by exact Hne. exact Hk.
  - apply orb_false_iff in Hgave. destruct Hgave as [_ Hflag].
    destruct (translate_primary_first_spec text to_lang from_lang s Hflag)
      as (v' & delta & s' & Hm & _ & Hcache & _).
    rewrite Hm. simpl. rewrite Hcache.
    rewrite lookup_insert_ne by exact Hne. exact Hk.
Qed.


(** X9: Over any sequence of calls an entry of the cache, once stored, stays
    as it is: nothing is evicted and nothing is overwritten. *)
Theorem cache_entries_permanent
    (requests : list (str * str * str)) (s : state) (k v : str) :
  translation_cache (self s) !! k = Some v ->
  translation_cache (self (snd (translate_all requests s))) !! k = Some v.
Proof.
  revert s. induction requests as [| [[text to_lang] from_lang] requests IH];
    intros s Hk; [exact Hk |].
  simpl.
  destruct (translate_text_spec text to_lang from_lang s)
    as (v1 & d1 & s1 & Hrun1 & _).
  pose proof (translate_text_cache_kept text to_lang from_lang s k v Hk) as H1.
  rewrite Hrun1 in H1. simpl in H1.
  destruct (translate_all_spec requests s1) as (vs & d2 & s2 & Hrun2 & _).
  specialize (IH s1 H1). rewrite Hrun2 in IH. simpl in IH.
  erewrite bind_ok by exact Hrun1. erewrite bind_ok by exact Hrun2.
  exact IH.
Qed.

(** X10: The key of the cache is the first 30 characters and the languages: a
    second text that shares them with a text translated before gets the
    translation of the first, and no backend is called for it. *)
Theorem cache_prefix_collision (text1 text2 to_lang from_lang : str) (s : state) :
  text1 <> [] -> text2 <> [] ->
  bool_decide (to_lang = lit "zh") && contains_chinese text1 = false ->
  bool_decide (to_lang = lit "zh") && contains_chinese text2 = false ->
  slice text1 0 30 = slice text2 0 30 ->
  exists v s1,
    translate_text text1 to_lang from_lang s = (Ok v, s1) /\
    translate_text text2 to_lang from_lang s1 = (Ok v, s1).
Proof.
  intros Hne1 Hne2 Hskip1 Hskip2 Hprefix.
  destruct (translate_text_spec text1 to_lang from_lang s)
    as (v & delta & s1 & Hrun & _ & _ & _ & Hcache).
  exists v, s1. split; [exact Hrun |].
  specialize (Hcache Hne1 Hskip1).
  unfold translate_text. rewrite bool_decide_eq_false_2 by exact Hne2.
  rewrite Hskip2. unfold bind at 1. unfold get_cache, cache_key in *.
  rewrite <- Hprefix, Hcache. reflexivity.
Qed.

Lemma primary_exception_run
    (chunk to_lang from_lang : str) (s : state) (w : World) :
  use_google_translate (self s) = false ->
  translator_translate to_lang from_lang chunk (world s) = (Raises, w) ->
  let translated :=
    google_result chunk
      (fst (requests_get (google_url chunk to_lang from_lang) w)) in
  (forall translated_chunks, exists s',
     translate_chunk to_lang from_lang chunk translated_chunks s
     = (Ok (translated_chunks ++ [translated]), s') /\
     translation_fail_count (self s') = translation_fail_count (self s) + 1 /\
     use_google_translate (self s') = false) /\
  (chunk <> [] ->
   bool_decide (to_lang = lit "zh") && contains_chinese chunk = false ->
   translation_cache (self s) !! cache_key chunk to_lang from_lang = None ->
   translation_fail_count (self s) < 3 ->
   len chunk <= 450 ->
   exists s',
     translate_text chunk to_lang from_lang s = (Ok translated, s') /\
     translation_fail_count (self s') = translation_fail_count (self s) + 1 /\
     use_google_translate (self s') = false /\
     translation_cache (self s') !! cache_key chunk to_lang from_lang
     = Some translated).
Proof.
  intros Hflag Hprimary translated. split.
  - intros translated_chunks.
    unfold translate_chunk, bind, try_except, sleep, get_use_google,
      primary_translate, incr_fail_count, set_use_google, ret.
    simpl. rewrite Hflag. simpl. rewrite Hprimary. simpl.
    rewrite google_translate_run. eexists. split; [reflexivity |].
    split; [reflexivity | exact Hflag].
  - intros Hne Hskip Hmiss Hcount Hshort.
    unfold translate_text. rewrite bool_decide_eq_false_2 by exact Hne.
    rewrite Hskip. unfold bind at 1. unfold get_cache. rewrite Hmiss.
    unfold bind at 1. unfold get_fail_count.
    unfold bind at 1. unfold get_use_google.
    rewrite Hflag, orb_false_r.
    destruct (Z.leb_spec 3 (translation_fail_count (self s))); [lia |].
    unfold translate_primary_first, try_except, bind at 1.
    unfold run_chunk_text, run_loop.
    unfold Chunker.chunk_text. rewrite chunk_text_fast_path by exact Hshort.
    unfold translate_single, bind, try_except, primary_translate,
      incr_fail_count, set_use_google, cache_store, ret.
    cbv beta. rewrite Hprimary. simpl.
    rewrite google_translate_run. simpl. eexists. split; [reflexivity |].
    split; [reflexivity |]. split; [exact Hflag |]. apply lookup_insert_eq.
Qed.

(** X11: The primary backend raises for the only chunk of a text while the
    session still uses it: the failure count grows by 1 and the flag stays
    unset (unlike with the quota message), and what [google_translate]
    returns for the chunk is returned and cached.  The same holds for one
    iteration of the loop over several chunks. *)
Theorem primary_exception_falls_back
    (chunk to_lang from_lang : str) (s : state) (w : World) :
  use_google_translate (self s) = false ->
  translator_translate to_lang from_lang chunk (world s) = (Raises, w) ->
  let translated :=
    google_result chunk
      (fst (requests_get (google_url chunk to_lang from_lang) w)) in
  (forall translated_chunks, exists s',
     translate_chunk to_lang from_lang chunk translated_chunks s
     = (Ok (translated_chunks ++ [translated]), s') /\
     translation_fail_count (self s') = translation_fail_count (self s) + 1 /\
     use_google_translate (self s') = false) /\
  (chunk <> [] ->
   bool_decide (to_lang = lit "zh") && contains_chinese chunk = false ->
   translation_cache (self s) !! cache_key chunk to_lang from_lang = None ->
   translation_fail_count (self s) < 3 ->
   len chunk <= 450 ->
   exists s',
     translate_text chunk to_lang from_lang s = (Ok translated, s') /\
     translation_fail_count (self s') = translation_fail_count (self s) + 1 /\
     use_google_translate (self s') = false /\
     translation_cache (self s') !! cache_key chunk to_lang from_lang
     = Some translated).
Proof. exact (primary_exception_run chunk to_lang from_lang s w). Qed.

(** X12: Both backends raise for a text of one chunk: the text itself is
    returned and stored in the cache as its own translation, so the next
    call returns it again and calls no backend. *)
Theorem failed_translation_is_cached
    (text to_lang from_lang : str) (s : state) (w w' : World) :
  text <> [] ->
  bool_decide (to_lang = lit "zh") && contains_chinese text = false ->
  translation_cache (self s) !! cache_key text to_lang from_lang = None ->
  translation_fail_count (self s) < 3 ->
  use_google_translate (self s) = false ->
  len text <= 450 ->
  translator_translate to_lang from_lang text (world s) = (Raises, w) ->
  requests_get (google_url text to_lang from_lang) w = (Raises, w') ->
  exists s',
    translate_text text to_lang from_lang s = (Ok text, s') /\
    translation_cache (self s') !! cache_key text to_lang from_lang
    = Some text /\
    translate_text text to_lang from_lang s' = (Ok text, s').
Proof.
  intros Hne Hskip Hmiss Hcount Hflag Hshort Hprimary Hgoogle.
  destruct (primary_exception_run text to_lang from_lang s w
              Hflag Hprimary) as [_ Hcall].
  destruct (Hcall Hne Hskip Hmiss Hcount Hshort)
    as (s' & Hrun & _ & _ & Hcache).
  rewrite Hgoogle in Hrun, Hcache. simpl in Hrun, Hcache.
  exists s'. split; [exact Hrun |]. split; [exact Hcache |].
  unfold translate_text. rewrite bool_decide_eq_false_2 by exact Hne.
  rewrite Hskip. unfold bind at 1. unfold get_cache. rewrite Hcache.
  reflexivity.
Qed.

(** A loop over chunks with a primary backend that answers [f chunk] for
    every chunk, whatever the world, and never the quota message. *)
Lemma for_each_steady (f : str -> str) (to_lang from_lang : str) :
  (forall chunk w,
     fst (translator_translate to_lang from_lang chunk w) = Returns (f chunk)) ->
  (forall chunk, quota_exceeded (f chunk) = false) ->
  forall chunks acc s,
    use_google_translate (self s) = false ->
    exists s' delta,
      for_each chunks (translate_chunk to_lang from_lang) acc s
      = (Ok (acc ++ map f chunks), s') /\
      self s' = self s /\
      trace s' = trace s ++ delta /\
      Forall not_google delta.
Proof.
  intros Hsteady Hclean. induction chunks as [| c chunks IH]; intros acc s Hflag.
  - exists s, []. simpl. unfold ret. rewrite !app_nil_r.
    split; [reflexivity |]. split; [reflexivity |].
    split; [reflexivity | constructor].
  - simpl. unfold bind at 1.
    assert (Hbody : exists s1,
              translate_chunk to_lang from_lang c acc s
              = (Ok (acc ++ [f c]), s1) /\
              self s1 = self s /\
              trace s1
              = trace s ++ [EvSleep 500;
                            EvPrimary to_lang from_lang c (Returns (f c))]).
    { unfold translate_chunk, bind, try_except, sleep, get_use_google,
        primary_translate, ret.
      simpl. rewrite Hflag. simpl.
      pose proof (Hsteady c (world s)) as Hc.
      destruct (translator_translate to_lang from_lang c (world s))
        as [r w] eqn:Hcall.
      simpl in Hc. subst r. simpl. rewrite Hclean.
      eexists. split; [reflexivity |]. split; [reflexivity |].
      simpl. rewrite <- app_assoc. reflexivity. }
    destruct Hbody as (s1 & Hrun1 & Hself1 & Htrace1).
    rewrite Hrun1.
    destruct (IH (acc ++ [f c]) s1) as (s' & delta & Hrun & Hself & Htrace & Hng).
    { rewrite Hself1. exact Hflag. }
    exists s', ([EvSleep 500; EvPrimary to_lang from_lang c (Returns (f c))]
                ++ delta).
    rewrite Hrun, <- app_assoc. split; [reflexivity |].
    split; [congruence |]. split.
    + rewrite Htrace, Htrace1, <- app_assoc. reflexivity.
    + repeat constructor. exact Hng.
Qed.

(** X13: With a primary backend that answers [f chunk] for every chunk and
    never the quota message, a call that reaches it returns the
    translations of the chunks of [chunk_text(text)] joined by single
    spaces, stores that string in the cache, leaves the failure count and
    the flag as they are and never calls the secondary backend. *)
Theorem steady_primary_translates
    (f : str -> str) (text to_lang from_lang : str) (s : state)
    (chunks : list str) :
  (forall chunk w,
     fst (translator_translate to_lang from_lang chunk w) = Returns (f chunk)) ->
  (forall chunk, quota_exceeded (f chunk) = false) ->
  text <> [] ->
  bool_decide (to_lang = lit "zh") && contains_chinese text = false ->
  translation_cache (self s) !! cache_key text to_lang from_lang = None ->
  translation_fail_count (self s) < 3 ->
  use_google_translate (self s) = false ->
  Chunker.chunk_text text 450 = Some chunks ->
  let translated := join (lit " ") (map f chunks) in
  exists s' delta,
    translate_text text to_lang from_lang s = (Ok translated, s') /\
    translation_cache (self s')
    = <[cache_key text to_lang from_lang := translated]>
        (translation_cache (self s)) /\
    translation_fail_count (self s') = translation_fail_count (self s) /\
    use_google_translate (self s') = false /\
    trace s' = trace s ++ delta /\
    Forall not_google delta.
Proof.
  intros Hsteady Hclean Hne Hskip Hmiss Hcount Hflag Hchunks translated.
  unfold translate_text. rewrite bool_decide_eq_false_2 by exact Hne.
  rewrite Hskip. unfold bind at 1. unfold get_cache. rewrite Hmiss.
  unfold bind at 1. unfold get_fail_count.
  unfold bind at 1. unfold get_use_google.
  rewrite Hflag, orb_false_r.
  destruct (Z.leb_spec 3 (translation_fail_count (self s))); [lia |].
  unfold translate_primary_first, try_except, bind at 1.
  unfold run_chunk_text, run_loop. rewrite Hchunks.
  assert (Hloop : exists s' delta,
            bind (for_each chunks (translate_chunk to_lang from_lang) [])
              (fun translated_chunks =>
               bind (cache_store (cache_key text to_lang from_lang)
                       (join (lit " ") translated_chunks)) (fun _ =>
               ret (join (lit " ") translated_chunks))) s
            = (Ok translated, s') /\
            translation_cache (self s')
            = <[cache_key text to_lang from_lang := translated]>
                (translation_cache (self s)) /\
            translation_fail_count (self s') = translation_fail_count (self s) /\
            use_google_translate (self s') = false /\
            trace s' = trace s ++ delta /\
            Forall not_google delta).
  { destruct (for_each_steady f to_lang from_lang Hsteady Hclean chunks [] s
                Hflag) as (s1 & delta & Hrun & Hself & Htrace & Hng).
    simpl in Hrun. eexists _, delta.
    split; [erewrite bind_ok by exact Hrun; reflexivity |].
    simpl. rewrite Hself. auto. }
  destruct chunks as [| chunk [| c2 rest]].
  - destruct Hloop as (s' & delta & Hrun & Hrest).
    exists s', delta. cbv beta iota. rewrite Hrun. auto.
  - clear Hloop. cbv beta iota.
    unfold translate_single, bind, try_except, primary_translate,
      cache_store, ret.
    pose proof (Hsteady chunk (world s)) as Hc.
    destruct (translator_translate to_lang from_lang chunk (world s))
      as [r w] eqn:Hcall.
    simpl in Hc. subst r. simpl. rewrite Hclean.
    eexists _, [_]. split; [reflexivity |]. split; [reflexivity |].
    split; [reflexivity |]. split; [exact Hflag |].
    split; [reflexivity |]. repeat constructor.
  - destruct Hloop as (s' & delta & Hrun & Hrest).
    exists s', delta. cbv beta iota. rewrite Hrun. auto.
Qed.

End TranslatorInvariants.


Lemma cache_entries_permanent_witness :
  translation_cache
    (self (snd (translate_all three_requests
                  (snd (translate_text hello zh en (start offline init))))))
    !! lit "hello_en_zh"
  = Some hello.
Proof.
  apply (cache_entries_permanent three_requests
           (snd (translate_text hello zh en (start offline init)))).
  vm_compute. reflexivity.
Defined.

Lemma cache_prefix_collision_witness :
  exists v s1,
    translate_text ABSTRACT_ONE zh en (start offline init) = (Ok v, s1) /\
    translate_text ABSTRACT_TWO zh en s1 = (Ok v, s1).
Proof.
  apply (cache_prefix_collision ABSTRACT_ONE ABSTRACT_TWO zh en
           (start offline init));
    try discriminate; reflexivity.
Defined.

Lemma primary_exception_falls_back_witness :
  exists s',
    translate_text hello zh en
      (start {| primary_answers := []; http_answers := [Returns google_hello] |}
             init)
    = (Ok NI_HAO, s') /\
    translation_fail_count (self s') = 1 /\
    use_google_translate (self s') = false /\
    translation_cache (self s') !! lit "hello_en_zh" = Some NI_HAO.
Proof.
  refine (proj2 (primary_exception_falls_back hello zh en
            (start {| primary_answers := [];
                      http_answers := [Returns google_hello] |} init)
            {| primary_answers := []; http_answers := [Returns google_hello] |}
            _ _) _ _ _ _ _).
  - reflexivity.
  - reflexivity.
  - discriminate.
  - reflexivity.
  - reflexivity.
  - simpl. lia.
  - vm_compute. discriminate.
Defined.

Lemma failed_translation_is_cached_witness :
  exists s',
    translate_text hello zh en (start offline init) = (Ok hello, s') /\
    translation_cache (self s') !! lit "hello_en_zh" = Some hello /\
    translate_text hello zh en s' = (Ok hello, s').
Proof.
  apply (failed_translation_is_cached hello zh en (start offline init)
           offline offline);
    try reflexivity; discriminate.
Defined.

Lemma steady_primary_translates_witness :
  exists s' delta,
    @translate_text steady ABSTRACT_ONE zh en (steady_start init)
    = (Ok OK_WORD, s') /\
    translation_cache (self s')
    = <[cache_key ABSTRACT_ONE zh en := OK_WORD]> ∅ /\
    translation_fail_count (self s') = 0 /\
    use_google_translate (self s') = false /\
    trace s' = delta /\
    Forall not_google delta.
Proof.
  apply (@steady_primary_translates steady (fun _ => OK_WORD)
           ABSTRACT_ONE zh en (steady_start init) [ABSTRACT_ONE]);
    try reflexivity; discriminate.
Defined.

(** ** The quota message and the rest of the session *)

Section QuotaSeal.
Context `{RT : Runtime}.

Lemma sealed_app (d1 d2 : list event) :
  sealed d1 = true -> sealed d2 = true ->
  (existsb quota_event d1 = true ->
   forallb (fun e => negb (is_primary e)) d2 = true) ->
  sealed (d1 ++ d2) = true.
Proof.
  induction d1 as [| e d1 IH]; intros H1 H2 Hq; [exact H2 |].
  simpl in *. apply andb_true_iff in H1. destruct H1 as [He H1].
  apply andb_true_iff. split.
  - destruct (quota_event e); [| reflexivity].
    rewrite forallb_app, He. apply Hq. reflexivity.
  - apply IH; [exact H1 | exact H2 |]. intros Hex. apply Hq.
    rewrite Hex. apply orb_true_r.
Qed.

Lemma sealed_split (d1 d2 : list event) (e : event) :
  sealed (d1 ++ e :: d2) = true -> quota_event e = true -> no_primary d2.
Proof.
  induction d1 as [| x d1 IH]; simpl; intros Hs He.
  - rewrite He in Hs. apply andb_true_iff in Hs. destruct Hs as [Hs _].
    apply Forall_forall. intros e' Hin.
    rewrite forallb_forall in Hs. apply list_elem_of_In in Hin.
    apply negb_true_iff, Hs, Hin.
  - apply andb_true_iff in Hs. apply IH; [exact (proj2 Hs) | exact He].
Qed.

Lemma seal_step_refl (s : state) : seal_step s s [].
Proof.
  constructor; simpl; auto.
  - symmetry. apply app_nil_r.
  - discriminate.
Qed.

Lemma seal_step_trans (s1 s2 s3 : state) (d1 d2 : list event) :
  seal_step s1 s2 d1 -> seal_step s2 s3 d2 -> seal_step s1 s3 (d1 ++ d2).
Proof.
  intros [T1 Q1 F1 S1] [T2 Q2 F2 S2]. constructor.
  - rewrite T2, T1. symmetry. apply app_assoc.
  - rewrite existsb_app. intros Hex. apply orb_true_iff in Hex.
    destruct Hex as [Hex | Hex]; [apply F2, Q1, Hex | apply Q2, Hex].
  - intros Hflag. destruct (F1 Hflag) as [Hflag2 Hnp1].
    destruct (F2 Hflag2) as [Hflag3 Hnp2].
    split; [exact Hflag3 |]. rewrite forallb_app, Hnp1, Hnp2. reflexivity.
  - apply sealed_app; [exact S1 | exact S2 |].
    intros Hex. apply F2, Q1, Hex.
Qed.

(** A change of the cache alone. *)
Lemma seal_step_store (s s' : state) (delta : list event) (key value : str) :
  seal_step s s' delta ->
  seal_step s (snd (cache_store key value s')) delta.
Proof. intros [T Q F S]. constructor; simpl; auto. Qed.

Lemma google_chunk_seal (to_lang from_lang chunk : str) (acc : list str)
    (s : state) :
  exists v delta s',
    google_chunk to_lang from_lang chunk acc s = (Ok (acc ++ [v]), s') /\
    seal_step s s' delta.
Proof.
  unfold google_chunk, bind, sleep, ret. rewrite google_translate_run.
  eexists _, [EvSleep 500; _], _. split; [reflexivity |].
  constructor; simpl.
  - rewrite <- app_assoc. reflexivity.
  - discriminate.
  - auto.
  - reflexivity.
Qed.

Lemma translate_chunk_seal (to_lang from_lang chunk : str) (acc : list str)
    (s : state) :
  exists v delta s',
    translate_chunk to_lang from_lang chunk acc s = (Ok (acc ++ [v]), s') /\
    seal_step s s' delta.
Proof.
  unfold translate_chunk, bind, try_except, sleep, get_use_google,
    primary_translate, incr_fail_count, set_use_google, ret.
  simpl.
  destruct (use_google_translate (self s)) eqn:Hflag.
  - rewrite google_translate_run.
    eexists _, [EvSleep 500; _], _. split; [reflexivity |].
    constructor; simpl.
    + rewrite <- app_assoc. reflexivity.
    + discriminate.
    + auto.
    + reflexivity.
  - destruct (translator_translate to_lang from_lang chunk (world s))
      as [[translated |] w] eqn:Hprimary; simpl; rewrite ?Hprimary; simpl.
    + destruct (quota_exceeded translated) eqn:Hquota.
      * rewrite google_translate_run.
        eexists _, [EvSleep 500;
                    EvPrimary to_lang from_lang chunk (Returns translated); _],
          _.
        split; [reflexivity |]. constructor; simpl.
        -- rewrite <- !app_assoc. reflexivity.
        -- reflexivity.
        -- congruence.
        -- rewrite Hquota. reflexivity.
      * eexists _, [EvSleep 500;
                    EvPrimary to_lang from_lang chunk (Returns translated)], _.
        split; [reflexivity |]. constructor; simpl.
        -- rewrite <- !app_assoc. reflexivity.
        -- rewrite Hquota. discriminate.
        -- congruence.
        -- rewrite Hquota. reflexivity.
    + rewrite google_translate_run.
      eexists _, [EvSleep 500; EvPrimary to_lang from_lang chunk Raises; _], _.
      split; [reflexivity |]. constructor; simpl.
      * rewrite <- !app_assoc. reflexivity.
      * discriminate.
      * congruence.
      * reflexivity.
Qed.

Lemma for_each_seal (body : str -> list str -> M (list str)) :
  (forall chunk acc s, exists v delta s',
     body chunk acc s = (Ok (acc ++ [v]), s') /\ seal_step s s' delta) ->
  forall chunks acc s, exists vs delta s',
    for_each chunks body acc s = (Ok vs, s') /\ seal_step s s' delta.
Proof.
  intros Hbody. induction chunks as [| c chunks IH]; intros acc s.
  - exists acc, [], s. split; [reflexivity | apply seal_step_refl].
  - destruct (Hbody c acc s) as (v & d1 & s1 & Hrun1 & Hstep1).
    destruct (IH (acc ++ [v]) s1) as (vs & d2 & s2 & Hrun2 & Hstep2).
    exists vs, (d1 ++ d2), s2. simpl. unfold bind. rewrite Hrun1, Hrun2.
    split; [reflexivity | eapply seal_step_trans; eassumption].
Qed.

Lemma loop_store_seal (body : str -> list str -> M (list str))
    (chunks : list str) (key : str) (s : state) :
  (forall chunk acc s, exists v delta s',
     body chunk acc s = (Ok (acc ++ [v]), s') /\ seal_step s s' delta) ->
  exists v delta s',
    bind (for_each chunks body []) (fun translated_chunks =>
    bind (cache_store key (join (lit " ") translated_chunks)) (fun _ =>
    ret (join (lit " ") translated_chunks))) s = (Ok v, s') /\
    seal_step s s' delta.
Proof.
  intros Hbody.
  destruct (for_each_seal body Hbody chunks [] s)
    as (vs & delta & s1 & Hrun & Hstep).
  eexists _, delta, _. split.
  - erewrite bind_ok by exact Hrun. reflexivity.
  - apply (seal_step_store s s1 delta). exact Hstep.
Qed.

Lemma translate_single_seal (text chunk to_lang from_lang : str) (s : state) :
  use_google_translate (self s) = false ->
  exists v delta s',
    translate_single text chunk to_lang from_lang s = (Ok v, s') /\
    seal_step s s' delta.
Proof.
  intros Hflag.
  unfold translate_single, bind, try_except, primary_translate,
    incr_fail_count, set_use_google, cache_store, ret.
  destruct (translator_translate to_lang from_lang chunk (world s))
    as [[translated |] w] eqn:Hprimary; simpl.
  - destruct (quota_exceeded translated) eqn:Hquota.
    + rewrite google_translate_run. simpl.
      eexists _, [EvPrimary to_lang from_lang chunk (Returns translated); _], _.
      split; [reflexivity |]. constructor; simpl.
      * rewrite <- !app_assoc. reflexivity.
      * reflexivity.
      * congruence.
      * rewrite Hquota. reflexivity.
    + eexists _, [EvPrimary to_lang from_lang chunk (Returns translated)], _.
      split; [reflexivity |]. constructor; simpl.
      * reflexivity.
      * rewrite Hquota. discriminate.
      * congruence.
      * rewrite Hquota. reflexivity.
  - rewrite google_translate_run. simpl.
    eexists _, [EvPrimary to_lang from_lang chunk Raises; _], _.
    split; [reflexivity |]. constructor; simpl.
    + rewrite <- !app_assoc. reflexivity.
    + discriminate.
    + congruence.
    + reflexivity.
Qed.

Lemma translate_text_seal (text to_lang from_lang : str) (s : state) :
  exists v delta s',
    translate_text text to_lang from_lang s = (Ok v, s') /\
    seal_step s s' delta.
Proof.
  unfold translate_text.
  destruct (bool_decide (text = []));
    [exists [], [], s; split; [reflexivity | apply seal_step_refl] |].
  destruct (bool_decide (to_lang = lit "zh") && contains_chinese text);
    [exists text, [], s; split; [reflexivity | apply seal_step_refl] |].
  unfold bind at 1. unfold get_cache.
  destruct (translation_cache (self s) !! cache_key text to_lang from_lang)
    as [cached |];
    [exists cached, [], s; split; [reflexivity | apply seal_step_refl] |].
  unfold bind, get_fail_count, get_use_google, set_use_google.
  destruct ((3 <=? translation_fail_count (self s))
            || use_google_translate (self s)) eqn:Hgave.
  - unfold translate_google_only.
    match goal with
    | |- context [try_except _ _ ?s0] => set (s0' := s0)
    end.
    destruct (run_chunk_text_ok text 900 s0') as (chunks & Hrun & _); [lia |].
    assert (Hgoal : exists v delta s',
              try_except
                (bind (run_chunk_text text 900) (fun chunks =>
                   match chunks with
                   | [chunk] =>
                     bind (google_translate chunk to_lang from_lang)
                       (fun translated =>
                        bind (cache_store (cache_key text to_lang from_lang)
                                translated) (fun _ => ret translated))
                   | _ =>
                     bind (for_each chunks (google_chunk to_lang from_lang) [])
                       (fun translated_chunks =>
                        bind (cache_store (cache_key text to_lang from_lang)
                                (join (lit " ") translated_chunks)) (fun _ =>
                        ret (join (lit " ") translated_chunks)))
                   end)) (ret text) s0' = (Ok v, s') /\
              seal_step s0' s' delta).
    { destruct (loop_store_seal (google_chunk to_lang from_lang) chunks
                  (cache_key text to_lang from_lang) s0'
                  (google_chunk_seal to_lang from_lang))
        as (v & delta & s' & Hm & Hstep).
      destruct chunks as [| chunk [| c2 rest]].
      - exists v, delta, s'. split; [| exact Hstep].
        apply try_except_ok. erewrite bind_ok by exact Hrun. exact Hm.
      - eexists _, [_], _. split.
        + apply try_except_ok. erewrite bind_ok by exact Hrun. cbv beta iota.
          erewrite bind_ok by apply google_translate_run. reflexivity.
        + constructor; simpl; auto; discriminate.
      - exists v, delta, s'. split; [| exact Hstep].
        apply try_except_ok. erewrite bind_ok by exact Hrun. exact Hm. }
    destruct Hgoal as (v & delta & s' & Hm & [T Q F S]).
    exists v, delta, s'. split; [exact Hm |].
    subst s0'. simpl in T, Q, F. constructor; auto.
  - apply orb_false_iff in Hgave. destruct Hgave as [_ Hflag].
    unfold translate_primary_first.
    destruct (run_chunk_text_ok text 450 s) as (chunks & Hrun & _); [lia |].
    destruct (loop_store_seal (translate_chunk to_lang from_lang) chunks
                (cache_key text to_lang from_lang) s
                (translate_chunk_seal to_lang from_lang))
      as (v & delta & s' & Hm & Hstep).
    destruct chunks as [| chunk [| c2 rest]].
    + exists v, delta, s'. split; [| exact Hstep].
      apply try_except_ok. erewrite bind_ok by exact Hrun. exact Hm.
    + destruct (translate_single_seal text chunk to_lang from_lang s Hflag)
        as (v1 & d1 & s1 & Hm1 & Hstep1).
      exists v1, d1, s1. split; [| exact Hstep1].
      apply try_except_ok. erewrite bind_ok by exact Hrun. exact Hm1.
    + exists v, delta, s'. split; [| exact Hstep].
      apply try_except_ok. erewrite bind_ok by exact Hrun. exact Hm.
Qed.

Lemma translate_all_seal (requests : list (str * str * str)) :
  forall s, exists results delta s',
    translate_all requests s = (Ok results, s') /\ seal_step s s' delta.
Proof.
  induction requests as [| [[text to_lang] from_lang] requests IH]; intros s.
  - exists [], [], s. split; [reflexivity | apply seal_step_refl].
  - destruct (translate_text_seal text to_lang from_lang s)
      as (v & d1 & s1 & Hrun1 & Hstep1).
    destruct (IH s1) as (vs & d2 & s2 & Hrun2 & Hstep2).
    exists (v :: vs), (d1 ++ d2), s2. split.
    + simpl. erewrite bind_ok by exact Hrun1.
      erewrite bind_ok by exact Hrun2. reflexivity.
    + eapply seal_step_trans; eassumption.
Qed.

(** X14: In a session, a primary call that is answered with the quota message
    is the last primary call: the chunks left in that call, and every
    later call, go to the secondary backend only. *)
Theorem quota_message_ends_primary_calls
    (requests : list (str * str * str)) (s : state) :
  exists results delta s',
    translate_all requests s = (Ok results, s') /\
    trace s' = trace s ++ delta /\
    forall before e after,
      delta = before ++ e :: after ->
      quota_event e = true ->
      no_primary after.
Proof.
  destruct (translate_all_seal requests s)
    as (results & delta & s' & Hrun & [T _ _ S]).
  exists results, delta, s'. split; [exact Hrun |]. split; [exact T |].
  intros before e after -> He. eapply sealed_split; eassumption.
Qed.

End QuotaSeal.

Lemma quota_message_ends_primary_calls_witness :
  no_primary
    (tl (trace (snd (translate_all [(hello, zh, en); (lit "one", zh, en)]
                       (start quota_world init))))).
Proof.
  destruct (quota_message_ends_primary_calls
              [(hello, zh, en); (lit "one", zh, en)] (start quota_world init))
    as (results & delta & s' & Hrun & Htrace & Hseal).
  rewrite Hrun. cbn [snd].
  vm_compute in Hrun. injection Hrun as _ Hs. subst s'.
  vm_compute in Htrace. subst delta.
  cbn [trace tl]. eapply (Hseal []); reflexivity.
Defined.

(** ** Properties of [translate_paper_data] *)

Section PaperDataFacts.
Context `{RT : Runtime}.

(** A second call on the same text returns what the first returned and
    changes nothing. *)
Lemma translate_text_again (text to_lang from_lang : str) (s s1 : state)
    (v : str) :
  translate_text text to_lang from_lang s = (Ok v, s1) ->
  translate_text text to_lang from_lang s1 = (Ok v, s1).
Proof.
  intros Hrun.
  destruct (translate_text_spec text to_lang from_lang s)
    as (v' & delta & s1' & Hrun' & _ & _ & _ & Hcache).
  rewrite Hrun in Hrun'. injection Hrun' as <- <-.
  unfold translate_text in Hrun |- *.
  destruct (bool_decide (text = [])) eqn:Hempty.
  { injection Hrun as <- <-. reflexivity. }
  apply bool_decide_eq_false in Hempty.
  destruct (bool_decide (to_lang = lit "zh") && contains_chinese text) eqn:Hskip.
  { injection Hrun as <- <-. reflexivity. }
  specialize (Hcache Hempty eq_refl).
  unfold bind at 1. unfold get_cache. rewrite Hcache. reflexivity.
Qed.

(** What one of the two blocks does, by the kind of value found. *)
Lemma translate_field_run (paper_data : gmap str json) (field field_zh : str)
    (translated_data : gmap str json) (s : state) :
  match paper_data !! field with
  | None => translate_field paper_data field field_zh translated_data s
            = (Ok translated_data, s)
  | Some value =>
    if negb (truthy value) then
      translate_field paper_data field field_zh translated_data s
      = (Ok (<[field_zh := JStr []]> translated_data), s)
    else
      match value with
      | JStr text =>
        exists v s',
          translate_text text (lit "zh") (lit "en") s = (Ok v, s') /\
          translate_field paper_data field field_zh translated_data s
          = (Ok (<[field_zh := JStr v]> translated_data), s')
      | _ =>
        translate_field paper_data field field_zh translated_data s
        = (Ok (<[field_zh := value]> translated_data), s)
      end
  end.
Proof.
  unfold translate_field.
  destruct (paper_data !! field) as [value |]; [| reflexivity].
  unfold translate_value, try_except, bind, ret, raise.
  destruct (negb (truthy value)) eqn:Hfalsy; [reflexivity |].
  destruct value as [| b | n | text | items | fields]; try reflexivity.
  destruct (translate_text_spec text (lit "zh") (lit "en") s)
    as (v & delta & s' & Hrun & _).
  exists v, s'. rewrite Hrun. auto.
Qed.

Lemma translate_field_spec (paper_data : gmap str json) (field field_zh : str)
    (translated_data : gmap str json) (s : state) :
  exists result s',
    translate_field paper_data field field_zh translated_data s
    = (Ok result, s') /\
    (forall k, k <> field_zh -> result !! k = translated_data !! k) /\
    (is_Some (paper_data !! field) -> is_Some (result !! field_zh)) /\
    (paper_data !! field = None -> result = translated_data /\ s' = s).
Proof.
  pose proof (translate_field_run paper_data field field_zh translated_data s)
    as Hrun.
  destruct (paper_data !! field) as [value |].
  - assert (Hins : forall (x : json) s',
              translate_field paper_data field field_zh translated_data s
              = (Ok (<[field_zh := x]> translated_data), s') ->
              exists result s'',
                translate_field paper_data field field_zh translated_data s
                = (Ok result, s'') /\
                (forall k, k <> field_zh ->
                           result !! k = translated_data !! k) /\
                (is_Some (Some value) -> is_Some (result !! field_zh)) /\
                (Some value = None -> result = translated_data /\ s'' = s)).
    { intros x s' Hx. eexists _, _. split; [exact Hx |]. split; [| split].
      - intros k Hk. apply lookup_insert_ne. congruence.
      - intros _. rewrite lookup_insert_eq. eauto.
      - discriminate. }
    destruct (negb (truthy value)); [eapply Hins; exact Hrun |].
    destruct value; try (eapply Hins; exact Hrun).
    destruct Hrun as (v & s' & _ & Hrun). eapply Hins; exact Hrun.
  - exists translated_data, s. split; [exact Hrun |].
    split; [reflexivity |]. split; [intros [x Hx]; discriminate | auto].
Qed.

(** X15: [translate_paper_data] never raises.  It returns the record with every
    key other than ['title_zh'] and ['summary_zh'] as it was; a record
    with a title gets a ['title_zh'], one with a summary a
    ['summary_zh']; a record with neither comes back unchanged and no
    backend is called. *)
Theorem translate_paper_data_additive (paper_data : gmap str json) (s : state) :
  exists result s',
    translate_paper_data paper_data s = (Ok result, s') /\
    (forall k, k <> lit "title_zh" -> k <> lit "summary_zh" ->
               result !! k = paper_data !! k) /\
    (is_Some (paper_data !! lit "title") ->
     is_Some (result !! lit "title_zh")) /\
    (is_Some (paper_data !! lit "summary") ->
     is_Some (result !! lit "summary_zh")) /\
    (paper_data !! lit "title" = None -> paper_data !! lit "summary" = None ->
     result = paper_data /\ s' = s).
Proof.
  unfold translate_paper_data.
  destruct (translate_field_spec paper_data (lit "title") (lit "title_zh")
              paper_data s) as (r1 & s1 & Hrun1 & Hkeep1 & Hset1 & Hnone1).
  destruct (translate_field_spec paper_data (lit "summary") (lit "summary_zh")
              r1 s1) as (r2 & s2 & Hrun2 & Hkeep2 & Hset2 & Hnone2).
  exists r2, s2. split; [erewrite bind_ok by exact Hrun1; exact Hrun2 |].
  split; [| split; [| split]].
  - intros k Ht Hs. rewrite Hkeep2 by exact Hs. apply Hkeep1. exact Ht.
  - intros Htitle. rewrite Hkeep2 by discriminate. apply Hset1. exact Htitle.
  - exact Hset2.
  - intros Ht Hs. destruct (Hnone1 Ht) as [-> ->].
    destruct (Hnone2 Hs) as [-> ->]. auto.
Qed.

(** X16: A title that is not a string is never sent to a backend: a falsy one
    (null, [0], [false], an empty list or object, the empty string) gives
    the empty string as ['title_zh'], any other one is copied as it is,
    through the [except] branch. *)
Theorem translate_paper_data_odd_title
    (paper_data : gmap str json) (title : json) (s : state) :
  paper_data !! lit "title" = Some title ->
  (forall text, title = JStr text -> text = []) ->
  exists result s',
    translate_paper_data paper_data s = (Ok result, s') /\
    result !! lit "title_zh"
    = Some (if truthy title then title else JStr []) /\
    (paper_data !! lit "summary" = None -> s' = s).
Proof.
  intros Htitle Hodd. unfold translate_paper_data.
  pose proof (translate_field_run paper_data (lit "title") (lit "title_zh")
                paper_data s) as Hrun1.
  rewrite Htitle in Hrun1.
  destruct (translate_field_spec paper_data (lit "summary") (lit "summary_zh")
              (<[lit "title_zh" := if truthy title then title else JStr []]>
                 paper_data) s)
    as (r2 & s2 & Hrun2 & Hkeep2 & _ & Hnone2).
  assert (Hfirst :
            translate_field paper_data (lit "title") (lit "title_zh")
              paper_data s
            = (Ok (<[lit "title_zh" := if truthy title then title else JStr []]>
                     paper_data), s)).
  { destruct (truthy title) eqn:Htruthy; simpl in Hrun1; [| exact Hrun1].
    destruct title as [| b | n | text | items | fields]; try exact Hrun1.
    rewrite (Hodd text eq_refl) in Htruthy. discriminate. }
  exists r2, s2. split; [erewrite bind_ok by exact Hfirst; exact Hrun2 |].
  split.
  - rewrite Hkeep2 by discriminate. apply lookup_insert_eq.
  - intros Hs. exact (proj2 (Hnone2 Hs)).
Qed.

(** X17: A record whose title and summary are the same text: the summary is
    answered from the cache, so both get the same translation and the
    state after the call is the state after translating the title. *)
Theorem translate_paper_data_same_text
    (paper_data : gmap str json) (text : str) (s : state) :
  text <> [] ->
  paper_data !! lit "title" = Some (JStr text) ->
  paper_data !! lit "summary" = Some (JStr text) ->
  exists v s',
    translate_text text (lit "zh") (lit "en") s = (Ok v, s') /\
    translate_paper_data paper_data s
    = (Ok (<[lit "summary_zh" := JStr v]>
             (<[lit "title_zh" := JStr v]> paper_data)), s').
Proof.
  intros Hne Htitle Hsummary. unfold translate_paper_data.
  assert (Htruthy : negb (truthy (JStr text)) = false).
  { simpl. rewrite bool_decide_eq_false_2 by exact Hne. reflexivity. }
  pose proof (translate_field_run paper_data (lit "title") (lit "title_zh")
                paper_data s) as Hrun1.
  rewrite Htitle, Htruthy in Hrun1.
  destruct Hrun1 as (v & s' & Hcall & Hrun1).
  exists v, s'. split; [exact Hcall |].
  pose proof (translate_field_run paper_data (lit "summary") (lit "summary_zh")
                (<[lit "title_zh" := JStr v]> paper_data) s') as Hrun2.
  rewrite Hsummary, Htruthy in Hrun2.
  destruct Hrun2 as (v2 & s2 & Hcall2 & Hrun2).
  rewrite (translate_text_again _ _ _ _ _ _ Hcall) in Hcall2.
  injection Hcall2 as <- <-.
  erewrite bind_ok by exact Hrun1. exact Hrun2.
Qed.

End PaperDataFacts.

Lemma translate_paper_data_additive_witness :
  exists result s',
    translate_paper_data paper_record (start offline init) = (Ok result, s') /\
    result !! lit "year" = Some (JNum 2017) /\
    is_Some (result !! lit "title_zh") /\
    is_Some (result !! lit "summary_zh").
Proof.
  destruct (translate_paper_data_additive paper_record (start offline init))
    as (result & s' & Hrun & Hkeep & Htitle & Hsummary & _).
  exists result, s'. split; [exact Hrun |]. split; [| split].
  - rewrite Hkeep by discriminate. reflexivity.
  - apply Htitle. vm_compute. eauto.
  - apply Hsummary. vm_compute. eauto.
Defined.

Lemma translate_paper_data_odd_title_witness :
  exists result s',
    translate_paper_data (<[lit "title" := JNum 42]> ∅) (start offline init)
    = (Ok result, s') /\
    result !! lit "title_zh" = Some (JNum 42) /\
    s' = start offline init.
Proof.
  destruct (translate_paper_data_odd_title (<[lit "title" := JNum 42]> ∅)
              (JNum 42) (start offline init))
    as (result & s' & Hrun & Htitle & Hstate).
  - reflexivity.
  - discriminate.
  - exists result, s'. split; [exact Hrun |]. split; [exact Htitle |].
    apply Hstate. reflexivity.
Defined.

Lemma translate_paper_data_same_text_witness :
  exists v s',
    translate_text hello (lit "zh") (lit "en") (start offline init)
    = (Ok v, s') /\
    translate_paper_data paper_record (start offline init)
    = (Ok (<[lit "summary_zh" := JStr v]>
             (<[lit "title_zh" := JStr v]> paper_record)), s').
Proof.
  apply (translate_paper_data_same_text paper_record hello
           (start offline init));
    [discriminate | reflexivity | reflexivity].
Defined.

(** ** Properties of the query translation *)

Section QueryFacts.
Context `{RT : Runtime}.

(** The two versions of [contains_chinese] agree on every text. *)
Lemma app_contains_chinese_agrees (text : str) :
  app_contains_chinese text = contains_chinese text.
Proof.
  unfold app_contains_chinese, contains_chinese.
  destruct (bool_decide (text = [])) eqn:Hempty; [| reflexivity].
  apply bool_decide_eq_true in Hempty. subst text. reflexivity.
Qed.

(** X18: [translate_to_english] of the web page never raises and leaves the
    session of the enricher alone.  The flag it returns says whether the
    query contains Chinese, whatever became of the translation; a query
    without Chinese comes back as it is and no backend is called. *)
Theorem app_translate_to_english_flag (text : str) (s : state) :
  exists v s',
    app_translate_to_english text s = (Ok (v, contains_chinese text), s') /\
    self s' = self s /\
    (contains_chinese text = false -> v = text /\ s' = s).
Proof.
  rewrite <- app_contains_chinese_agrees. unfold app_translate_to_english.
  destruct (app_contains_chinese text) eqn:Hcjk; cbn [negb].
  - unfold try_except, bind, primary_translate, ret.
    destruct (translator_translate (lit "en") (lit "zh") text (world s))
      as [[translated |] w]; simpl.
    + destruct (quota_exceeded translated); cbv beta.
      * rewrite google_translate_run. eexists _, _.
        split; [reflexivity |]. split; [reflexivity | discriminate].
      * eexists _, _. split; [reflexivity |].
        split; [reflexivity | discriminate].
    + rewrite google_translate_run. eexists _, _.
      split; [reflexivity |]. split; [reflexivity | discriminate].
  - exists text, s. auto.
Qed.

(** X19: A query with Chinese for which both backends raise comes back
    unchanged, and still with the flag [True]: the [False] of the last
    [except] is never returned, since [google_translate] does not raise. *)
Theorem app_translate_to_english_both_down
    (text : str) (s : state) (w w' : World) :
  existsb is_cjk text = true ->
  translator_translate (lit "en") (lit "zh") text (world s) = (Raises, w) ->
  requests_get (google_url text (lit "en") (lit "zh")) w = (Raises, w') ->
  fst (app_translate_to_english text s) = Ok (text, true).
Proof.
  intros Hcjk Hprimary Hgoogle. unfold app_translate_to_english.
  unfold app_contains_chinese. rewrite Hcjk. cbn [negb].
  unfold try_except, bind, primary_translate, ret. rewrite Hprimary.
  unfold lift. cbv beta iota.
  rewrite google_translate_run. unfold google_answer, google_result.
  cbn [world log with_world fst]. rewrite Hgoogle. reflexivity.
Qed.

(** X20: [translate_to_english] of the command line never raises and never
    calls the secondary backend.  For a query with Chinese it makes one
    primary call and returns its answer as it is, the quota message
    included, with [True]; when the call raises it returns the query with
    [False]. *)
Theorem main_translate_to_english_primary_only
    (text : str) (s : state) (r : response str) (w : World) :
  existsb is_cjk text = true ->
  translator_translate (lit "en") (lit "zh") text (world s) = (r, w) ->
  exists s',
    main_translate_to_english text s
    = (Ok match r with
          | Returns translated => (translated, true)
          | Raises => (text, false)
          end, s') /\
    self s' = self s /\
    trace s' = trace s ++ [EvPrimary (lit "en") (lit "zh") text r].
Proof.
  intros Hcjk Hprimary. unfold main_translate_to_english.
  unfold app_contains_chinese. rewrite Hcjk. cbn [negb].
  unfold try_except, bind, primary_translate, ret. rewrite Hprimary.
  destruct r as [translated |]; simpl; eexists; split; reflexivity || auto.
Qed.

End QueryFacts.

Lemma app_translate_to_english_flag_witness :
  exists s',
    app_translate_to_english hello (start offline init) = (Ok (hello, false), s')
    /\ s' = start offline init.
Proof.
  destruct (app_translate_to_english_flag hello (start offline init))
    as (v & s' & Hrun & _ & Hsame).
  destruct (Hsame eq_refl) as [-> ->].
  exists (start offline init). split; [exact Hrun | reflexivity].
Defined.

Lemma app_translate_to_english_both_down_witness :
  fst (app_translate_to_english NI_HAO (start offline init)) = Ok (NI_HAO, true).
Proof.
  apply (app_translate_to_english_both_down NI_HAO (start offline init)
           offline offline); reflexivity.
Defined.

Lemma main_translate_to_english_primary_only_witness :
  exists s',
    main_translate_to_english NI_HAO
      (start {| primary_answers := [Returns QUOTA_MESSAGE]; http_answers := [] |}
             init)
    = (Ok (QUOTA_MESSAGE, true), s') /\
    self s' = init /\
    trace s' = [EvPrimary (lit "en") (lit "zh") NI_HAO (Returns QUOTA_MESSAGE)].
Proof.
  apply (main_translate_to_english_primary_only NI_HAO
           (start {| primary_answers := [Returns QUOTA_MESSAGE];
                     http_answers := [] |} init)
           (Returns QUOTA_MESSAGE) offline); reflexivity.
Defined.

(** ** The values of the enrichment *)

Section EnrichmentValues.
Context `{RT : Runtime}.

Lemma topic_names_map (topics : list json) :
  forallb is_object topics = true ->
  topic_names topics = Returns (map topic_name topics).
Proof.
  induction topics as [| topic topics IH]; intros Hall; [reflexivity |].
  simpl in Hall. apply andb_true_iff in Hall. destruct Hall as [Hobj Hall].
  destruct topic; try discriminate. simpl. rewrite (IH Hall). reflexivity.
Qed.

Lemma topics_of_value (fields : list (str * json)) :
  well_formed_paper (JObj fields) = true ->
  topics_of (JObj fields) = Returns (topics_value fields).
Proof.
  unfold well_formed_paper, topics_of, topics_value, dict_get.
  destruct (assoc (lit "topics") fields) as [t |]; simpl; [| reflexivity].
  destruct t as [| b | n | t | topics | obj]; simpl.
  - reflexivity.
  - intros Hb. apply negb_true_iff in Hb. subst b. reflexivity.
  - destruct (n =? 0); simpl; [reflexivity | discriminate].
  - destruct (bool_decide (t = [])); simpl; [reflexivity | discriminate].
  - intros Hall. destruct topics as [| topic topics]; [reflexivity |].
    simpl negb. cbv iota.
    change (match topic_names (topic :: topics) with
            | Returns names => Returns (JArr names)
            | Raises => Raises
            end = Returns (JArr (map topic_name (topic :: topics)))).
    rewrite (topic_names_map _ Hall). reflexivity.
  - destruct (bool_decide (obj = [])); simpl; [reflexivity | discriminate].
Qed.

(** X21: For a 200 answer whose body is a well-formed object, each field of the
    mapping is the value of the answer under the Semantic Scholar name, or
    the default of the code when the answer lacks it: 0 for the two
    counts, '未知' for the venue, [None] for year, doi and url, [False]
    for open access; the topics are the names of the topics in order
    ([None] for a topic without a name), the empty list when the answer
    has no topics. *)
Theorem enrichment_values
    (arxiv_id : str) (s : state) (response : http_response)
    (fields : list (str * json)) :
  fst (requests_get (semantic_scholar_url (strip_arxiv_prefix arxiv_id))
         (world s)) = Returns response ->
  status_code response = 200 ->
  json_body response = Some (JObj fields) ->
  well_formed_paper (JObj fields) = true ->
  exists result,
    fst (enrich_with_semantic_scholar arxiv_id s) = Ok result /\
    result !! lit "citation_count"
    = Some (default (JNum 0) (assoc (lit "citationCount") fields)) /\
    result !! lit "influence_factor"
    = Some (default (JNum 0) (assoc (lit "influentialCitationCount") fields)) /\
    result !! lit "published_in"
    = Some (default (JStr UNKNOWN) (assoc (lit "venue") fields)) /\
    result !! lit "year" = Some (default JNull (assoc (lit "year") fields)) /\
    result !! lit "doi" = Some (default JNull (assoc (lit "doi") fields)) /\
    result !! lit "url" = Some (default JNull (assoc (lit "url") fields)) /\
    result !! lit "is_open_access"
    = Some (default (JBool false) (assoc (lit "isOpenAccess") fields)) /\
    result !! lit "topics" = Some (topics_value fields).
Proof.
  intros Hanswer Hstatus Hbody Hwf.
  unfold enrich_with_semantic_scholar, try_except, bind, sleep,
    semantic_scholar_get, ret.
  simpl.
  destruct (requests_get (semantic_scholar_url (strip_arxiv_prefix arxiv_id))
              (world s)) as [r w].
  simpl in Hanswer. subst r. simpl. rewrite Hstatus. simpl.
  unfold json_of. rewrite Hbody. simpl.
  unfold additional_data, bind, lift, ret.
  rewrite (topics_of_value fields Hwf). simpl.
  eexists. split; [reflexivity |].
  repeat split; vm_compute; reflexivity.
Qed.

End EnrichmentValues.

Lemma enrichment_values_witness :
  exists result,
    fst (enrich_with_semantic_scholar (lit "arxiv:1706.03762")
           (start scholar_world init)) = Ok result /\
    result !! lit "citation_count" = Some (JNum 100) /\
    result !! lit "influence_factor" = Some (JNum 0) /\
    result !! lit "published_in" = Some (JStr (lit "NIPS")) /\
    result !! lit "doi" = Some JNull /\
    result !! lit "topics" = Some (JArr [JStr (lit "Attention")]).
Proof.
  destruct (enrichment_values (lit "arxiv:1706.03762")
              (start scholar_world init)
              {| status_code := 200; json_body := Some paper_json |}
              [ (lit "citationCount", JNum 100);
                (lit "venue", JStr (lit "NIPS"));
                (lit "year", JNum 2017);
                (lit "topics",
                 JArr [JObj [(lit "name", JStr (lit "Attention"))]]) ])
    as (result & Hrun & H1 & H2 & H3 & _ & H5 & _ & _ & H8);
    try reflexivity.
  exists result. split; [exact Hrun |].
  repeat split; assumption.
Defined.

(** ** The cuts of the chunker on an example *)

Lemma sentence_end_kinds_witness :
  let text := lit "Hello. World? Yes! no more" in
  let cut := Chunker.sentence_end text 10 0 in
  (exists p w,
     In p [Chunker.DOT; Chunker.QUESTION; Chunker.BANG] /\
     In w [Chunker.SPACE; Chunker.NEWLINE] /\
     text !! Z.to_nat cut = Some p /\ text !! Z.to_nat (cut + 1) = Some w) \/
  (Chunker.last_terminator text 0 (0 + 10) = -1 /\
   text !! Z.to_nat cut = Some Chunker.SPACE) \/
  (Chunker.last_terminator text 0 (0 + 10) = -1 /\
   rfind text [Chunker.SPACE] 0 (0 + 10) = -1 /\
   cut = 0 + 10 - 1).
Proof.
  apply (sentence_end_kinds (lit "Hello. World? Yes! no more") 10 0);
    [lia | lia | vm_compute; reflexivity].
Defined.

(** ** Properties of [get_paper_details] *)

Section EnrichmentShape.
Context `{RT : Runtime}.

Lemma outside_enrichment_fields (k : str) (v1 v2 v3 v4 v5 v6 v7 v8 : json) :
  ~ In k enrichment_fields ->
  (<[lit "topics" := v8]>
   (<[lit "is_open_access" := v7]>
   (<[lit "url" := v6]>
   (<[lit "doi" := v5]>
   (<[lit "year" := v4]>
   (<[lit "published_in" := v3]>
   (<[lit "influence_factor" := v2]>
   (<[lit "citation_count" := v1]> (∅ : gmap str json))))))))) !! k = None.
Proof.
  intros Hk. unfold enrichment_fields in Hk. simpl in Hk.
  rewrite !lookup_insert_ne by (intros Heq; apply Hk; rewrite <- Heq; tauto).
  apply lookup_empty.
Qed.

Lemma additional_data_keys (data : json) (s s' : state)
    (result : gmap str json) (k : str) :
  additional_data data s = (Ok result, s') ->
  ~ In k enrichment_fields -> result !! k = None.
Proof.
  unfold additional_data, bind, lift, ret. intros Hrun Hk.
  repeat match type of Hrun with
  | context [match ?r with Returns _ => _ | Raises => _ end] =>
    destruct r; simpl in Hrun; try discriminate
  end.
  injection Hrun as <- _. apply outside_enrichment_fields. exact Hk.
Qed.

(** The enrichment returns, leaves the session alone, and its mapping has
    no key besides the eight enrichment fields. *)
Lemma enrich_keys_only (paper_id : str) (s : state) :
  exists additional s',
    enrich_with_semantic_scholar paper_id s = (Ok additional, s') /\
    self s' = self s /\
    (forall k, ~ In k enrichment_fields -> additional !! k = None).
Proof.
  unfold enrich_with_semantic_scholar, try_except, bind, sleep,
    semantic_scholar_get, ret.
  simpl.
  destruct (requests_get _ (world s)) as [[response |] w]; simpl.
  - destruct (status_code response =? 200).
    + unfold json_of. destruct (json_body response) as [data |]; simpl.
      * match goal with
        | |- context [additional_data data ?s0] =>
          destruct (additional_data data s0) as [[result | |] s1] eqn:Hrun
        end.
        -- exists result, s1. split; [reflexivity |]. split.
           ++ unfold additional_data, bind, lift, ret in Hrun.
              repeat match type of Hrun with
              | context [match ?r with Returns _ => _ | Raises => _ end] =>
                destruct r; simpl in Hrun; try discriminate
              end.
              injection Hrun as _ <-. reflexivity.
           ++ intros k Hk. eapply additional_data_keys; eassumption.
        -- exists ∅, s1. split; [reflexivity |]. split.
           ++ unfold additional_data, bind, lift, ret in Hrun.
              repeat match type of Hrun with
              | context [match ?r with Returns _ => _ | Raises => _ end] =>
                destruct r; simpl in Hrun; try discriminate
              end;
              injection Hrun as <-; reflexivity.
           ++ intros k _. apply lookup_empty.
        -- exfalso. unfold additional_data, bind, lift, ret in Hrun.
           repeat match type of Hrun with
           | context [match ?r with Returns _ => _ | Raises => _ end] =>
             destruct r; simpl in Hrun; try discriminate
           end.
      * exists ∅. eexists. split; [reflexivity |].
        split; [reflexivity | intros k _; apply lookup_empty].
    + exists ∅. eexists. split; [reflexivity |].
      split; [reflexivity | intros k _; apply lookup_empty].
  - exists ∅. eexists. split; [reflexivity |].
    split; [reflexivity | intros k _; apply lookup_empty].
Qed.

(** A request that raises or is not answered with 200 gives the empty
    mapping. *)
Lemma enrich_fails_empty (paper_id : str) (s : state) :
  (forall response,
     fst (requests_get (semantic_scholar_url (strip_arxiv_prefix paper_id))
            (world s)) = Returns response ->
     status_code response <> 200) ->
  exists s',
    enrich_with_semantic_scholar paper_id s = (Ok ∅, s') /\ self s' = self s.
Proof.
  intros Hfail.
  unfold enrich_with_semantic_scholar, try_except, bind, sleep,
    semantic_scholar_get, ret.
  simpl.
  destruct (requests_get _ (world s)) as [[response |] w]; simpl.
  - destruct (Z.eqb_spec (status_code response) 200) as [H200 | Hnot].
    + exfalso. exact (Hfail response eq_refl H200).
    + eexists. split; reflexivity.
  - eexists. split; reflexivity.
Qed.

End EnrichmentShape.

Section ClientFacts.
Context `{ART : ArxivRuntime}.

Lemma translate_details_run (paper : arxiv_paper) (paper_data : gmap str json)
    (s : @state arxiv_rt) :
  exists title_zh summary_zh s1 s2,
    translate_text (paper_title paper) (lit "zh") (lit "en") s
    = (Ok title_zh, s1) /\
    translate_text (paper_summary paper) (lit "zh") (lit "en") s1
    = (Ok summary_zh, s2) /\
    translate_details paper paper_data s
    = (Ok (<[lit "summary_zh" := JStr summary_zh]>
             (<[lit "title_zh" := JStr title_zh]> paper_data)), s2).
Proof.
  destruct (translate_text_spec (paper_title paper) (lit "zh") (lit "en") s)
    as (t & d1 & s1 & Hrun1 & _).
  destruct (translate_text_spec (paper_summary paper) (lit "zh") (lit "en") s1)
    as (sm & d2 & s2 & Hrun2 & _).
  exists t, sm, s1, s2. split; [exact Hrun1 |]. split; [exact Hrun2 |].
  unfold translate_details. apply try_except_ok.
  erewrite bind_ok by exact Hrun1. erewrite bind_ok by exact Hrun2.
  reflexivity.
Qed.

Lemma merge_enrichment_run (paper_id : str) (paper_data : gmap str json)
    (s : @state arxiv_rt) :
  exists additional result s',
    enrich_with_semantic_scholar paper_id s = (Ok additional, s') /\
    merge_enrichment paper_id paper_data s = (Ok result, s') /\
    (forall k, ~ In k enrichment_fields -> result !! k = paper_data !! k) /\
    (forall k v, additional !! k = Some v -> result !! k = Some v) /\
    (additional = ∅ -> result = paper_data).
Proof.
  destruct (enrich_keys_only paper_id s)
    as (additional & s' & Hrun & _ & Hkeys).
  unfold merge_enrichment.
  destruct (Nat.eqb (size additional) 0) eqn:Hsize.
  - exists additional, paper_data, s'. split; [exact Hrun |]. split.
    + apply try_except_ok. erewrite bind_ok by exact Hrun.
      rewrite Hsize. reflexivity.
    + apply Nat.eqb_eq, map_size_empty_iff in Hsize. subst additional.
      split; [reflexivity |]. split; [| reflexivity].
      intros k v Hv. rewrite lookup_empty in Hv. discriminate.
  - exists additional, (additional ∪ paper_data), s'.
    split; [exact Hrun |]. split.
    + apply try_except_ok. erewrite bind_ok by exact Hrun.
      rewrite Hsize. reflexivity.
    + split; [| split].
      * intros k Hk. apply lookup_union_r, Hkeys, Hk.
      * intros k v Hv. apply lookup_union_Some_l. exact Hv.
      * intros ->. rewrite map_size_empty in Hsize. discriminate.
Qed.

Lemma paper_fields_not_enrichment (k : str) :
  In k (lit "title_zh" :: lit "summary_zh" :: lit "error" :: paper_fields) ->
  ~ In k enrichment_fields.
Proof.
  intros Hk Hin. vm_compute in Hk, Hin.
  repeat (destruct Hk as [<- | Hk];
          [repeat (destruct Hin as [Hin | Hin]; [discriminate |]);
           exact Hin |]).
  exact Hk.
Qed.

(** X22: For a paper that [arxiv] finds, [get_paper_details] returns a record
    without ['error'] in which the twelve fields of the paper are as
    [arxiv] gave them, ['title_zh'] and ['summary_zh'] are what
    [translate_text] returned for the title and then for the summary, and
    every entry of the enrichment is present: the enrichment adds fields,
    it replaces none. *)
Theorem get_paper_details_found
    (paper_id : str) (s : @state arxiv_rt) (paper : arxiv_paper)
    (w : @World arxiv_rt) :
  arxiv_next (strip_arxiv_prefix paper_id) (world s) = (ArxivFound paper, w) ->
  exists result s' title_zh summary_zh s1 s2 additional,
    get_paper_details_arxiv paper_id s = (Ok result, s') /\
    translate_text (paper_title paper) (lit "zh") (lit "en") (with_world w s)
    = (Ok title_zh, s1) /\
    translate_text (paper_summary paper) (lit "zh") (lit "en") s1
    = (Ok summary_zh, s2) /\
    enrich_with_semantic_scholar (strip_arxiv_prefix paper_id) s2
    = (Ok additional, s') /\
    (forall k, In k paper_fields -> result !! k = base_record paper !! k) /\
    result !! lit "title_zh" = Some (JStr title_zh) /\
    result !! lit "summary_zh" = Some (JStr summary_zh) /\
    result !! lit "error" = None /\
    (forall k v, additional !! k = Some v -> result !! k = Some v).
Proof.
  intros Hfound. unfold get_paper_details_arxiv. rewrite Hfound.
  destruct (translate_details_run paper (base_record paper) (with_world w s))
    as (t & sm & s1 & s2 & Hrun1 & Hrun2 & Hdetails).
  destruct (merge_enrichment_run (strip_arxiv_prefix paper_id)
              (<[lit "summary_zh" := JStr sm]>
                 (<[lit "title_zh" := JStr t]> (base_record paper))) s2)
    as (additional & result & s' & Henrich & Hmerge & Hkeep & Hadd & _).
  exists result, s', t, sm, s1, s2, additional.
  split.
  { apply try_except_ok. erewrite bind_ok by exact Hdetails. exact Hmerge. }
  split; [exact Hrun1 |]. split; [exact Hrun2 |]. split; [exact Henrich |].
  split; [| split; [| split; [| split]]].
  - intros k Hk. rewrite Hkeep
      by (apply paper_fields_not_enrichment; simpl; tauto).
    assert (Hzh : k <> lit "summary_zh" /\ k <> lit "title_zh").
    { vm_compute in Hk.
      repeat (destruct Hk as [<- | Hk]; [split; discriminate |]).
      destruct Hk. }
    rewrite !lookup_insert_ne by (intros Heq; symmetry in Heq; tauto).
    reflexivity.
  - rewrite Hkeep by (apply paper_fields_not_enrichment; simpl; tauto).
    rewrite lookup_insert_ne by discriminate. apply lookup_insert_eq.
  - rewrite Hkeep by (apply paper_fields_not_enrichment; simpl; tauto).
    apply lookup_insert_eq.
  - rewrite Hkeep by (apply paper_fields_not_enrichment; simpl; tauto).
    rewrite !lookup_insert_ne by discriminate. vm_compute. reflexivity.
  - exact Hadd.
Qed.

(** X23: When [arxiv] has no such paper, or raises, [get_paper_details] returns
    a record whose only key is ['error'] and calls neither a translation
    backend nor Semantic Scholar; the session stays as it was. *)
Theorem get_paper_details_missing
    (paper_id : str) (s : @state arxiv_rt) (answer : arxiv_answer)
    (w : @World arxiv_rt) :
  arxiv_next (strip_arxiv_prefix paper_id) (world s) = (answer, w) ->
  (forall paper, answer <> ArxivFound paper) ->
  exists message s',
    get_paper_details_arxiv paper_id s
    = (Ok (<[lit "error" := JStr message]> ∅), s') /\
    self s' = self s /\ trace s' = trace s /\
    (answer = ArxivStop ->
     message = NOT_FOUND ++ strip_arxiv_prefix paper_id ++ PAPER).
Proof.
  intros Hanswer Hmissing. unfold get_paper_details_arxiv. rewrite Hanswer.
  destruct answer as [paper | | message].
  - exfalso. exact (Hmissing paper eq_refl).
  - eexists _, _. split; [reflexivity |]. repeat split.
  - eexists _, _. split; [reflexivity |]. repeat split. discriminate.
Qed.

(** X24: When no request to Semantic Scholar is answered with 200, the record
    of a paper that was found is exactly the twelve fields of the paper
    and the two translations. *)
Theorem get_paper_details_without_enrichment
    (paper_id : str) (s : @state arxiv_rt) (paper : arxiv_paper)
    (w : @World arxiv_rt) :
  arxiv_next (strip_arxiv_prefix paper_id) (world s) = (ArxivFound paper, w) ->
  (forall (w' : @World arxiv_rt) response,
     fst (requests_get
            (semantic_scholar_url
               (strip_arxiv_prefix (strip_arxiv_prefix paper_id))) w')
     = Returns response ->
     status_code response <> 200) ->
  exists title_zh summary_zh s',
    get_paper_details_arxiv paper_id s
    = (Ok (<[lit "summary_zh" := JStr summary_zh]>
             (<[lit "title_zh" := JStr title_zh]> (base_record paper))), s').
Proof.
  intros Hfound Hfail. unfold get_paper_details_arxiv. rewrite Hfound.
  destruct (translate_details_run paper (base_record paper) (with_world w s))
    as (t & sm & s1 & s2 & _ & _ & Hdetails).
  destruct (enrich_fails_empty (strip_arxiv_prefix paper_id) s2
              (Hfail (world s2))) as (s' & Henrich & _).
  exists t, sm, s'. apply try_except_ok.
  erewrite bind_ok by exact Hdetails.
  unfold merge_enrichment. apply try_except_ok.
  erewrite bind_ok by exact Henrich. rewrite map_size_empty. reflexivity.
Qed.

End ClientFacts.

Lemma get_paper_details_found_witness :
  exists result s',
    @get_paper_details_arxiv scripted_arxiv (lit "arxiv:1706.03762")
      (start scholar_world init) = (Ok result, s') /\
    result !! lit "title" = Some (JStr hello) /\
    result !! lit "error" = None.
Proof.
  destruct (@get_paper_details_found scripted_arxiv (lit "arxiv:1706.03762")
              (start scholar_world init) attention_paper scholar_world
              eq_refl)
    as (result & s' & t & sm & s1 & s2 & additional & Hrun & _ & _ & _
        & Hkeep & _ & _ & Herror & _).
  exists result, s'. split; [exact Hrun |]. split; [| exact Herror].
  rewrite Hkeep by (vm_compute; tauto). vm_compute. reflexivity.
Defined.

Lemma get_paper_details_missing_witness :
  exists s',
    @get_paper_details_arxiv scripted_arxiv (lit "arxiv:0000.00000")
      (start offline init)
    = (Ok (<[lit "error" := JStr (NOT_FOUND ++ lit "0000.00000" ++ PAPER)]> ∅),
       s') /\
    self s' = init /\ trace s' = [].
Proof.
  destruct (@get_paper_details_missing scripted_arxiv (lit "arxiv:0000.00000")
              (start offline init) ArxivStop offline eq_refl)
    as (message & s' & Hrun & Hself & Htrace & Hmessage);
    [discriminate |].
  rewrite (Hmessage eq_refl) in Hrun.
  exists s'. split; [exact Hrun |]. split; assumption.
Defined.

Lemma get_paper_details_without_enrichment_witness :
  exists title_zh summary_zh s',
    @get_paper_details_arxiv steady_arxiv (lit "1706.03762")
      (steady_start init)
    = (Ok (<[lit "summary_zh" := JStr summary_zh]>
             (<[lit "title_zh" := JStr title_zh]>
                (base_record attention_paper))), s').
Proof.
  apply (@get_paper_details_without_enrichment steady_arxiv
           (lit "1706.03762") (steady_start init) attention_paper tt
           eq_refl).
  intros w' response Hanswer. discriminate Hanswer.
Defined.
